(** * arm5-tools: seasons, arts and hash-validated file access

    A shallow embedding of the Python package [pyarm5]:
    - [arm5/datamodels/times.py]  : [Seasons], [YearSeason], [iter_between];
    - [arm5/datamodels/arts.py]   : [ArtEnumBase], [HermeticTechniques],
                                    [HermeticForms];
    - [pyarm5/bases.py]           : [StrFlag] and its prefix lookup;
    - [arm5/io/hashio.py]         : [wrap_open], [hash_open], [path_digest],
                                    [validate_path], [_HashFileWrapper].

    Python [int] is [Z]; [str] is [string] (one [ascii] per character, so the
    embedding speaks about ASCII text); [bytes] is [list Byte.byte]; an
    exception is a value of an error type carried by a sum or by the small
    state-and-error monad of the file-system model. *)

From Stdlib Require Import ZArith List Bool Lia Ascii String.
From Stdlib Require Import Sorting.Sorted Sorting.Permutation.
From stdpp Require Import base option list gmap strings.

Local Open Scope string_scope.
Local Open Scope list_scope.
Local Open Scope Z_scope.

(** ** Python built-ins used by the package *)

Module Py.

(** [l.index(x)]: position of the first occurrence, [None] standing for the
    [ValueError] Python raises when there is none. *)
Fixpoint list_index {A} `{EqDecision A} (x : A) (l : list A) : option nat :=
  match l with
  | [] => None
  | y :: l' => if decide (x = y) then Some O else S <$> list_index x l'
  end.

(** [range(a, b)] over unbounded integers. *)
Definition range (a b : Z) : list Z :=
  map (fun i => a + Z.of_nat i) (seq 0 (Z.to_nat (b - a))).

(** [c.lower()] and [s.lower()] on ASCII text. *)
Definition ascii_lower (c : ascii) : ascii :=
  let n := nat_of_ascii c in
  if (Nat.leb 65 n && Nat.leb n 90)%bool then ascii_of_nat (n + 32) else c.

Fixpoint lower (s : string) : string :=
  match s with
  | EmptyString => EmptyString
  | String c s' => String (ascii_lower c) (lower s')
  end.

(** [s.title()] on a single word: first letter upper case, rest lower. *)
Definition ascii_upper (c : ascii) : ascii :=
  let n := nat_of_ascii c in
  if (Nat.leb 97 n && Nat.leb n 122)%bool then ascii_of_nat (n - 32) else c.

(** [s.startswith(p)]. *)
Definition startswith (s p : string) : bool := String.prefix p s.

(** [c in s] for a one-character [c]. *)
Fixpoint char_in (c : ascii) (s : string) : bool :=
  match s with
  | EmptyString => false
  | String d s' => if Ascii.eqb c d then true else char_in c s'
  end.

(** [s.rfind(c)]: index of the last occurrence, [-1] when absent. *)
Fixpoint rfind (s : string) (c : ascii) : Z :=
  match s with
  | EmptyString => -1
  | String d s' =>
      let r := rfind s' c in
      if r <? 0 then (if Ascii.eqb c d then 0 else -1) else r + 1
  end.

(** The slices [s[:i]] and [s[i:]] for [0 <= i]. *)
Definition slice_to (s : string) (i : Z) : string :=
  String.substring 0 (Z.to_nat i) s.
Definition slice_from (s : string) (i : Z) : string :=
  String.substring (Z.to_nat i) (String.length s - Z.to_nat i) s.

(** [sorted(l)]: Python's sort is stable and compares with [<] only.  It is
    modelled by a stable insertion sort that asks [lt] alone. *)
Section Sorted.
Context {A : Type} (lt : A -> A -> bool).

Fixpoint insert (x : A) (l : list A) : list A :=
  match l with
  | [] => [x]
  | y :: l' => if lt x y then x :: y :: l' else y :: insert x l'
  end.

Definition sorted (l : list A) : list A := fold_left (fun acc x => insert x acc) l [].
End Sorted.

End Py.

(** ** [arm5/datamodels/times.py] *)

Module Times.

(** [class Seasons(enum.Enum)].  [FALL = AUTUMN] is a Python-side alias: it
    names the same member. *)
Inductive Seasons := SPRING | SUMMER | AUTUMN | WINTER.

Definition FALL : Seasons := AUTUMN.

#[global] Instance Seasons_eq_dec : EqDecision Seasons.
Proof. solve_decision. Defined.

(** [member._value_] and [member._aliases_], as [__new__] stores them. *)
Definition _value_ (s : Seasons) : string :=
  match s with
  | SPRING => "spring" | SUMMER => "summer"
  | AUTUMN => "autumn" | WINTER => "winter"
  end.

Definition _aliases_ (s : Seasons) : list string :=
  match s with
  | AUTUMN => ["fall"]
  | _ => []
  end.

(** [for member in cls]: the members in declaration order, aliases left out. *)
Definition members : list Seasons := [SPRING; SUMMER; AUTUMN; WINTER].

(** [cls.__members__]: every name, aliases included, in declaration order. *)
Definition __members__ : list (string * Seasons) :=
  [("SPRING", SPRING); ("SUMMER", SUMMER); ("AUTUMN", AUTUMN);
   ("WINTER", WINTER); ("FALL", FALL)].

(** [_enumeration_order]: [list(type(self).__members__.values()).index(self)].
    The index always exists (see [enumeration_order_found]); [-1] is never
    produced. *)
Definition _enumeration_order (s : Seasons) : Z :=
  match Py.list_index s (map snd __members__) with
  | Some i => Z.of_nat i
  | None => -1
  end.

(** The four rich comparisons of [Seasons]; both operands are seasons, so the
    [NotImplemented] branch is excluded by the types. *)
Definition season_ge (a b : Seasons) : bool := _enumeration_order a >=? _enumeration_order b.
Definition season_gt (a b : Seasons) : bool := _enumeration_order a >? _enumeration_order b.
Definition season_le (a b : Seasons) : bool := _enumeration_order a <=? _enumeration_order b.
Definition season_lt (a b : Seasons) : bool := _enumeration_order a <? _enumeration_order b.

(** Members of an [Enum] compare equal exactly when they are the same member. *)
Definition season_eq (a b : Seasons) : bool := bool_decide (a = b).

(** [Seasons(value)]: lookup by value, then [_missing_].  [_missing_] tries
    the aliases of every member, with the string as given. *)
Inductive EnumError := NotAValidMember (value : string).

Definition by_value (value : string) : option Seasons :=
  find (fun m => String.eqb (_value_ m) value) members.

Definition _missing_ (value : string) : option Seasons :=
  find (fun m => bool_decide (value ∈ _aliases_ m)) members.

Definition call (value : string) : EnumError + Seasons :=
  match by_value value with
  | Some m => inr m
  | None =>
      match _missing_ value with
      | Some m => inr m
      | None => inl (NotAValidMember value)
      end
  end.

(** [class YearSeason(bases.FrozenModel)].  [Year] is a [PositiveInt]: the
    model checks it when a value is built from a year that was given ([new]
    below); the comparisons and [iter_between] take periods that exist. *)
Record YearSeason := mkYearSeason { year : Z; season : Seasons }.

Definition valid (p : YearSeason) : Prop := 0 < year p.

(** [cls(year=year, season=season)]: pydantic refuses a year that is not
    positive. *)
Inductive ValidationError := YearNotPositive (year : Z).

Definition new (year : Z) (season : Seasons) : ValidationError + YearSeason :=
  if 0 <? year then inr (mkYearSeason year season) else inl (YearNotPositive year).

(** [__eq__] of a pydantic model: same fields. *)
Definition eq (a b : YearSeason) : bool :=
  (year a =? year b) && season_eq (season a) (season b).

(** [YearSeason.__lt__]. *)
Definition lt (a b : YearSeason) : bool :=
  (year a <? year b) || ((year a =? year b) && season_lt (season a) (season b)).

(** What [functools.total_ordering] derives from [__lt__] and [__eq__]. *)
Definition gt (a b : YearSeason) : bool := negb (lt a b) && negb (eq a b).
Definition le (a b : YearSeason) : bool := lt a b || eq a b.
Definition ge (a b : YearSeason) : bool := negb (lt a b).

(** [YearSeason.iter_between]: the values the generator yields, in order. *)
Definition iter_between (start end_ : YearSeason) : list YearSeason :=
  if lt end_ start then []
  else
    map (mkYearSeason (year start))
        (filter (fun s => season_ge s (season start) = true) members)
    ++ flat_map (fun y => map (mkYearSeason y) members)
                (Py.range (year start + 1) (year end_))
    ++ map (mkYearSeason (year end_))
           (filter (fun s => season_le s (season end_) = true) members).

(** [YearSeason.start_of_year] and [YearSeason.end_of_year]. *)
Definition start_of_year (y : Z) : ValidationError + YearSeason := new y SPRING.
Definition end_of_year (y : Z) : ValidationError + YearSeason := new y WINTER.

End Times.


(** ** [arm5/datamodels/arts.py] *)

Module Arm5Arts.

(** The failure of [Enum.__new__] when neither the value table nor
    [_missing_] gives a member: [ValueError("... is not a valid ...")]. *)
Inductive EnumError := NotAValidMember (value : string).

(** [class ArtEnumBase(enum.Enum)], over the members a subclass declares.
    [declared m] is the tuple in the class body: the main value, then the
    aliases. *)
Section ArtEnumBase.
Context {M : Type} (members : list M) (declared : M -> string * list string).

(** [__new__]: value and aliases are stored in lower case. *)
Definition _value_ (m : M) : string := Py.lower (fst (declared m)).
Definition _aliases_ (m : M) : list string := map Py.lower (snd (declared m)).

(** [cls._value2member_map_[value]]. *)
Definition by_value (value : string) : option M :=
  find (fun m => String.eqb (_value_ m) value) members.

(** [_missing_]: lower the string, then the first member, in declaration
    order, whose value or one of whose aliases it is; [None] is what
    [super()._missing_] returns. *)
Definition _missing_ (value : string) : option M :=
  let value := Py.lower value in
  find (fun m => String.eqb (_value_ m) value || bool_decide (value ∈ _aliases_ m)) members.

(** [cls(value)] on a string. *)
Definition call (value : string) : EnumError + M :=
  match by_value value with
  | Some m => inr m
  | None =>
      match _missing_ value with
      | Some m => inr m
      | None => inl (NotAValidMember value)
      end
  end.

End ArtEnumBase.

Inductive HermeticTechniques := CREO | INTELLEGO | MUTO | PERDO | REGO.

Inductive HermeticForms :=
  ANIMAL | AQUAM | AURAM | CORPUS | HERBAM | IGNEM | IMAGINEM | MENTEM | TERRAM | VIM.

Definition techniques : list HermeticTechniques := [CREO; INTELLEGO; MUTO; PERDO; REGO].

Definition forms : list HermeticForms :=
  [ANIMAL; AQUAM; AURAM; CORPUS; HERBAM; IGNEM; IMAGINEM; MENTEM; TERRAM; VIM].

Definition technique_declared (m : HermeticTechniques) : string * list string :=
  match m with
  | CREO => ("creo", ["cr"])
  | INTELLEGO => ("intellego", ["in"])
  | MUTO => ("muto", ["mu"])
  | PERDO => ("perdo", ["pe"])
  | REGO => ("rego", ["re"])
  end.

Definition form_declared (m : HermeticForms) : string * list string :=
  match m with
  | ANIMAL => ("animal", ["an"])
  | AQUAM => ("aquam", ["aq"])
  | AURAM => ("auram", ["au"])
  | CORPUS => ("corpus", ["co"])
  | HERBAM => ("herbam", ["he"])
  | IGNEM => ("ignem", ["ig"])
  | IMAGINEM => ("imaginem", ["im"])
  | MENTEM => ("mentem", ["me"])
  | TERRAM => ("terram", ["te"])
  | VIM => ("vim", ["vi"])
  end.

(** [HermeticTechniques(value)] and [HermeticForms(value)]. *)
Definition HermeticTechniques_call : string -> EnumError + HermeticTechniques :=
  call techniques technique_declared.

Definition HermeticForms_call : string -> EnumError + HermeticForms :=
  call forms form_declared.

End Arm5Arts.

(** ** [pyarm5/bases.py] and [pyarm5/datamodels/arts.py] *)

Module Pyarm5.

(** The two [ValueError]s of [StrFlag._missing_], with the sets they print. *)
Inductive StrFlagError (M : Type) `{Countable M} :=
| Invalid (value : string) (expected : gset M)
| Ambiguous (value : string) (matches : gset M)
| KeyError.
Arguments Invalid {M _ _} value expected.
Arguments Ambiguous {M _ _} value matches.
Arguments KeyError {M _ _}.

(** [s.pop()] on a set: some element, [None] for the [KeyError] of the empty
    set. *)
Definition set_pop {M : Type} `{Countable M} (s : gset M) : option M := head (elements s).

(** [class StrFlag(enum.Flag)], over the members a subclass declares
    ([for member in cls]) and their names. *)
Section StrFlag.
Context {M : Type} `{Countable M} (members : list M) (name : M -> string).

(** The set comprehension of [_missing_], on the lowered string. *)
Definition matches (value : string) : gset M :=
  list_to_set (filter (fun m => Py.startswith (Py.lower (name m)) value = true) members).

(** [_missing_] on a string.  It returns or raises in every branch of the
    [match], so the call to [super()._missing_] is reached by non-strings only. *)
Definition _missing_ (value : string) : StrFlagError M + M :=
  let value := Py.lower value in
  let matches := matches value in
  match size matches with
  | O => inl (Invalid value (list_to_set members))
  | 1%nat => match set_pop matches with Some m => inr m | None => inl KeyError end
  | _ => inl (Ambiguous value matches)
  end.

(** [cls(value)] on a string: the value table of a [Flag] holds integers, so
    the lookup misses and [_missing_] decides. *)
Definition call (value : string) : StrFlagError M + M := _missing_ value.

End StrFlag.

Inductive HermeticTechnique := CREO | INTELLEGO | MUTO | PERDO | REGO.

Inductive HermeticForm :=
  ANIMAL | AQUAM | AURAM | CORPUS | HERBAM | IGNEM | IMAGINEM | MENTEM | TERRAM | VIM.

#[global] Instance HermeticTechnique_eq_dec : EqDecision HermeticTechnique.
Proof. solve_decision. Defined.

#[global] Instance HermeticForm_eq_dec : EqDecision HermeticForm.
Proof. solve_decision. Defined.

(** [enum.auto()] in a [Flag]: successive powers of two. *)
Definition technique_value (m : HermeticTechnique) : Z :=
  match m with CREO => 1 | INTELLEGO => 2 | MUTO => 4 | PERDO => 8 | REGO => 16 end.

Definition form_value (m : HermeticForm) : Z :=
  match m with
  | ANIMAL => 1 | AQUAM => 2 | AURAM => 4 | CORPUS => 8 | HERBAM => 16
  | IGNEM => 32 | IMAGINEM => 64 | MENTEM => 128 | TERRAM => 256 | VIM => 512
  end.

Definition technique_of_value (v : Z) : option HermeticTechnique :=
  find (fun m => technique_value m =? v) [CREO; INTELLEGO; MUTO; PERDO; REGO].

Definition form_of_value (v : Z) : option HermeticForm :=
  find (fun m => form_value m =? v)
       [ANIMAL; AQUAM; AURAM; CORPUS; HERBAM; IGNEM; IMAGINEM; MENTEM; TERRAM; VIM].

#[global] Instance HermeticTechnique_countable : Countable HermeticTechnique.
Proof.
  refine (inj_countable technique_value technique_of_value _).
  intros []; reflexivity.
Defined.

#[global] Instance HermeticForm_countable : Countable HermeticForm.
Proof.
  refine (inj_countable form_value form_of_value _).
  intros []; reflexivity.
Defined.

Definition techniques : list HermeticTechnique := [CREO; INTELLEGO; MUTO; PERDO; REGO].

Definition forms : list HermeticForm :=
  [ANIMAL; AQUAM; AURAM; CORPUS; HERBAM; IGNEM; IMAGINEM; MENTEM; TERRAM; VIM].

(** [member.name]. *)
Definition technique_name (m : HermeticTechnique) : string :=
  match m with
  | CREO => "CREO" | INTELLEGO => "INTELLEGO" | MUTO => "MUTO"
  | PERDO => "PERDO" | REGO => "REGO"
  end.

Definition form_name (m : HermeticForm) : string :=
  match m with
  | ANIMAL => "ANIMAL" | AQUAM => "AQUAM" | AURAM => "AURAM" | CORPUS => "CORPUS"
  | HERBAM => "HERBAM" | IGNEM => "IGNEM" | IMAGINEM => "IMAGINEM"
  | MENTEM => "MENTEM" | TERRAM => "TERRAM" | VIM => "VIM"
  end.

(** [HermeticTechnique(value)] and [HermeticForm(value)] on a string. *)
Definition HermeticTechnique_call : string -> StrFlagError HermeticTechnique + HermeticTechnique :=
  call techniques technique_name.

Definition HermeticForm_call : string -> StrFlagError HermeticForm + HermeticForm :=
  call forms form_name.

End Pyarm5.


(** ** [hashlib] *)

(** SHA-256 (FIPS 180-4) on byte strings, with 32-bit words as [Z] reduced
    modulo [2^32]; the one algorithm the package uses by default. *)
Module Sha256.

Definition w32 (x : Z) : Z := x mod 2 ^ 32.

Definition rotr (n x : Z) : Z := w32 (Z.lor (Z.shiftr x n) (Z.shiftl x (32 - n))).

Definition not32 (x : Z) : Z := Z.lxor x 0xffffffff.

Definition Ch (x y z : Z) : Z := Z.lxor (Z.land x y) (Z.land (not32 x) z).
Definition Maj (x y z : Z) : Z := Z.lxor (Z.lxor (Z.land x y) (Z.land x z)) (Z.land y z).
Definition Sigma0 (x : Z) : Z := Z.lxor (Z.lxor (rotr 2 x) (rotr 13 x)) (rotr 22 x).
Definition Sigma1 (x : Z) : Z := Z.lxor (Z.lxor (rotr 6 x) (rotr 11 x)) (rotr 25 x).
Definition sigma0 (x : Z) : Z := Z.lxor (Z.lxor (rotr 7 x) (rotr 18 x)) (Z.shiftr x 3).
Definition sigma1 (x : Z) : Z := Z.lxor (Z.lxor (rotr 17 x) (rotr 19 x)) (Z.shiftr x 10).

(** The constants, as FIPS 180-4 defines them: the first 32 bits of the
    fractional parts of the cube roots of the first 64 primes, and of the
    square roots of the first 8 primes. *)
Definition is_prime (p : Z) : bool :=
  (1 <? p) && forallb (fun d => negb (p mod d =? 0)) (Py.range 2 p).

Definition primes (n : nat) : list Z := firstn n (List.filter is_prime (Py.range 2 312)).

(** The integer cube root, one bit at a time from bit 39 down. *)
Definition icbrt (n : Z) : Z :=
  fold_left (fun r b => let r' := r + 2 ^ b in if r' * r' * r' <=? n then r' else r)
            (rev (Py.range 0 40)) 0.

Definition K : list Z := map (fun p => w32 (icbrt (p * 2 ^ 96))) (primes 64).

Definition H0 : list Z := map (fun p => w32 (Z.sqrt (p * 2 ^ 64))) (primes 8).

Definition byte_to_Z (b : Byte.byte) : Z := Z.of_N (Byte.to_N b).
Definition byte_of_Z (x : Z) : Byte.byte := default Byte.x00 (Byte.of_N (Z.to_N (x mod 256))).

(** The big-endian bytes of a number, [n] of them. *)
Fixpoint be_bytes (n : nat) (x : Z) : list Z :=
  match n with
  | O => []
  | S n' => be_bytes n' (Z.shiftr x 8) ++ [x mod 256]
  end.

(** Padding: the bit 1, zeros up to 56 modulo 64 bytes, the bit length. *)
Definition pad (msg : list Z) : list Z :=
  let len := Z.of_nat (length msg) in
  let zeros := Z.to_nat ((55 - len) mod 64) in
  msg ++ [0x80] ++ repeat 0 zeros ++ be_bytes 8 (8 * len).

Fixpoint words (fuel : nat) (bs : list Z) : list Z :=
  match fuel, bs with
  | S fuel', b0 :: b1 :: b2 :: b3 :: bs' =>
      (((b0 * 256 + b1) * 256 + b2) * 256 + b3) :: words fuel' bs'
  | _, _ => []
  end.

(** The message schedule, latest word first in [acc]. *)
Fixpoint schedule_rev (n : nat) (acc : list Z) : list Z :=
  match n with
  | O => acc
  | S n' =>
      let w := w32 (sigma1 (nth 1 acc 0) + nth 6 acc 0 + sigma0 (nth 14 acc 0) + nth 15 acc 0) in
      schedule_rev n' (w :: acc)
  end.

Definition schedule (block : list Z) : list Z := rev (schedule_rev 48 (rev block)).

Definition round (st : list Z) (kw : Z * Z) : list Z :=
  match st with
  | [a; b; c; d; e; f; g; h] =>
      let t1 := h + Sigma1 e + Ch e f g + fst kw + snd kw in
      let t2 := Sigma0 a + Maj a b c in
      [w32 (t1 + t2); a; b; c; w32 (d + t1); e; f; g]
  | _ => st
  end.

Definition compress (st block : list Z) : list Z :=
  let st' := fold_left round (combine K (schedule block)) st in
  map (fun p => w32 (fst p + snd p)) (combine st st').

Fixpoint blocks (fuel : nat) (ws st : list Z) : list Z :=
  match fuel with
  | O => st
  | S fuel' =>
      match ws with
      | [] => st
      | _ => blocks fuel' (skipn 16 ws) (compress st (firstn 16 ws))
      end
  end.

Definition sha256 (data : list Byte.byte) : list Byte.byte :=
  let bs := pad (map byte_to_Z data) in
  let ws := words (length bs) bs in
  let st := blocks (length ws) ws H0 in
  map byte_of_Z (flat_map (be_bytes 4) st).

End Sha256.

(** ** [arm5/io/hashio.py] *)

Module HashIO.

Abbreviation bytes := (list Byte.byte).

#[global] Instance byte_eq_dec : EqDecision Byte.byte := Byte.byte_eq_dec.

(** *** [pathlib] *)

(** A path: the components before the last one, and the last one ([name],
    empty when the path has no final component). *)
Record Path := mkPath { parent : list string; name : string }.

#[global] Instance Path_eq_dec : EqDecision Path.
Proof. solve_decision. Defined.

#[global] Instance Path_countable : Countable Path.
Proof.
  refine (inj_countable' (fun p => (parent p, name p)) (fun q => mkPath (fst q) (snd q)) _).
  intros []; reflexivity.
Defined.

Inductive PathError := InvalidSuffix (s : string) | EmptyName.

(** [PurePath.suffix]: from the last dot on, unless that dot is the first or
    the last character of the name. *)
Definition suffix (p : Path) : string :=
  let name := name p in
  let i := Py.rfind name "." in
  if (0 <? i) && (i <? Z.of_nat (String.length name) - 1)
  then Py.slice_from name i else "".

(** [PurePath.with_suffix], POSIX flavour (separator [/]). *)
Definition with_suffix (p : Path) (new_suffix : string) : PathError + Path :=
  if Py.char_in "/" new_suffix then inl (InvalidSuffix new_suffix)
  else if (negb (String.eqb new_suffix "") && negb (Py.startswith new_suffix "."))
          || String.eqb new_suffix "."
  then inl (InvalidSuffix new_suffix)
  else
    let name := name p in
    if String.eqb name "" then inl EmptyName
    else
      let old_suffix := suffix p in
      let name :=
        if String.eqb old_suffix "" then name +:+ new_suffix
        else Py.slice_to name (Z.of_nat (String.length name)
                               - Z.of_nat (String.length old_suffix)) +:+ new_suffix in
      inr (mkPath (parent p) name).

(** *** The file system and the interpreter state *)

(** Where in the module a call of [builtins.open] is made. *)
Inductive Site := InReadBytes | InWriteBytes | InPathDigest | InHashOpen.

Inductive Event :=
| EvOpen (site : Site) (p : Path) (mode : string)
| EvUnlink (p : Path)
| EvWarn (p : Path) (expected actual : bytes).

(** An open file object: its path, what its mode allows, its position in the
    file, and the data written to it that has not reached the file yet. *)
Record OpenFile := mkOpenFile {
  of_path : Path; of_readable : bool; of_writable : bool;
  of_append : bool; of_pos : nat; of_buffer : bytes }.

(** Regular files with their contents, the directories that exist (each by
    its components), the open file objects by descriptor, and what happened so
    far (oldest event first). *)
Record World := mkWorld {
  fs : gmap Path bytes;
  dirs : gset (list string);
  open_files : gmap nat OpenFile;
  log : list Event }.

Inductive Exn :=
| ValueError_unsupported_hash (hash_name : string)
| ValueError_path (e : PathError)
| ValueError_invalid_mode (mode : string)
| ValueError_closed_file
| UnsupportedOperation
| FileNotFoundError (p : Path)
| FileExistsError (p : Path)
| OSError_modified (p : Path) (expected actual : bytes)
| AssertionError
| TypeError_not_builtins_open.

(** Statements: they run in a world and end in a value or in an exception;
    the effects made before an exception stay. *)
Definition M (A : Type) : Type := World -> (Exn + A) * World.

Definition ret {A} (a : A) : M A := fun w => (inr a, w).
Definition raise {A} (e : Exn) : M A := fun w => (inl e, w).
Definition bind {A B} (m : M A) (k : A -> M B) : M B :=
  fun w => match m w with
           | (inl e, w') => (inl e, w')
           | (inr a, w') => k a w'
           end.
Definition get : M World := fun w => (inr w, w).
Definition put (w : World) : M unit := fun _ => (inr tt, w).
Definition emit (e : Event) : M unit :=
  fun w => (inr tt, mkWorld (fs w) (dirs w) (open_files w) (log w ++ [e])).
Definition set_fs (f : gmap Path bytes) : M unit :=
  fun w => (inr tt, mkWorld f (dirs w) (open_files w) (log w)).

Notation "x <- m ;; k" := (bind m (fun x => k))
  (at level 100, m at next level, right associativity).
Notation "m ;;; k" := (bind m (fun _ => k))
  (at level 100, right associativity).

(** [path.is_file()]. *)
Definition is_file (p : Path) (w : World) : bool := bool_decide (is_Some (fs w !! p)).

(** The directory with these components exists.  Nothing in the module makes
    or removes a directory. *)
Definition is_dir (d : list string) (w : World) : bool := bool_decide (d ∈ dirs w).

(** *** [builtins.open] and file objects *)

Record Mode := mkMode {
  creating : bool; reading : bool; writing : bool; appending : bool;
  updating : bool }.

(** The mode check of [io.open]: known letters, none twice, not both [t] and
    [b], exactly one of [x], [r], [w], [a]. *)
Definition parse_mode (mode : string) : option Mode :=
  let cs := list_ascii_of_string mode in
  let has c := Py.char_in c mode in
  if negb (forallb (fun c => Py.char_in c "axrwb+t") cs) then None
  else if negb (bool_decide (NoDup cs)) then None
  else if has "t"%char && has "b"%char then None
  else
    let n := (Nat.b2n (has "x"%char) + Nat.b2n (has "r"%char)
              + Nat.b2n (has "w"%char) + Nat.b2n (has "a"%char))%nat in
    if negb (Nat.eqb n 1) then None
    else Some (mkMode (has "x"%char) (has "r"%char) (has "w"%char) (has "a"%char)
                      (has "+"%char)).

(** A file object is known by its descriptor; [open] takes a free one. *)
Record File := mkFile { fileno : nat }.

(** [open(p, mode)].  A missing file is an error in a reading mode, an
    existing one in mode [x]; a file that is to be created needs its directory
    (an existing file lies in one).  Mode [w] empties the file at once. *)
Definition builtins_open (site : Site) (p : Path) (mode : string) : M File :=
  emit (EvOpen site p mode) ;;;
  match parse_mode mode with
  | None => raise (ValueError_invalid_mode mode)
  | Some m =>
      w <- get ;;
      let exists_ := is_file p w in
      if reading m && negb exists_ then raise (FileNotFoundError p)
      else if creating m && exists_ then raise (FileExistsError p)
      else if negb exists_ && negb (is_dir (parent p) w) then raise (FileNotFoundError p)
      else
        let content :=
          if writing m then [] else default [] (fs w !! p) in
        let o := mkOpenFile p (reading m || updating m)
                            (writing m || appending m || creating m || updating m)
                            (appending m)
                            (if appending m then length content else O) [] in
        let fd := fresh (dom (open_files w)) in
        put (mkWorld (<[p := content]> (fs w)) (dirs w) (<[fd := o]> (open_files w))
                     (log w)) ;;;
        ret (mkFile fd)
  end.

(** The contents of a file once the buffer of [o] is written out: at the
    position, or at the end in append mode. *)
Definition flushed (o : OpenFile) (content : bytes) : bytes :=
  let pos := if of_append o then length content else of_pos o in
  take pos content ++ of_buffer o ++ drop (pos + length (of_buffer o)) content.

(** Writing the buffer out, as [flush] and [close] do; with nothing buffered
    the file is not touched.  The result is the file object afterwards. *)
Definition write_out (o : OpenFile) : M OpenFile :=
  match of_buffer o with
  | [] => ret o
  | _ =>
      w <- get ;;
      let content := default [] (fs w !! of_path o) in
      let pos := if of_append o then length content else of_pos o in
      set_fs (<[of_path o := flushed o content]> (fs w)) ;;;
      ret (mkOpenFile (of_path o) (of_readable o) (of_writable o) (of_append o)
                      (pos + length (of_buffer o)) [])
  end.

(** [file.read()]: the rest of the file from the position; what was written
    through the same object is written out first. *)
Definition file_read (f : File) : M bytes :=
  w <- get ;;
  match open_files w !! fileno f with
  | None => raise ValueError_closed_file
  | Some o =>
      if negb (of_readable o) then raise UnsupportedOperation
      else
        o <- write_out o ;;
        w <- get ;;
        let content := default [] (fs w !! of_path o) in
        put (mkWorld (fs w) (dirs w)
               (<[fileno f := mkOpenFile (of_path o) (of_readable o) (of_writable o)
                                         (of_append o) (length content) []]> (open_files w))
               (log w)) ;;;
        ret (drop (of_pos o) content)
  end.

(** [file.write(data)]: the data goes to the buffer of the file object and
    reaches the file when the buffer is written out, by [file.__exit__] at the
    latest; until then a second file object on the same path does not see it.
    File contents are bytes; the encoding a text-mode file applies to [str] is
    not modelled, nor the size of the buffer (a full buffer would be written
    out earlier). *)
Definition file_write (f : File) (data : bytes) : M unit :=
  w <- get ;;
  match open_files w !! fileno f with
  | None => raise ValueError_closed_file
  | Some o =>
      if negb (of_writable o) then raise UnsupportedOperation
      else
        put (mkWorld (fs w) (dirs w)
               (<[fileno f := mkOpenFile (of_path o) (of_readable o) (of_writable o)
                                         (of_append o) (of_pos o) (of_buffer o ++ data)]>
                  (open_files w))
               (log w))
  end.

(** [file.__exit__]: write the buffer out and close the file object; closing
    a closed one does nothing. *)
Definition file_exit (f : File) : M unit :=
  w <- get ;;
  match open_files w !! fileno f with
  | None => ret tt
  | Some o =>
      write_out o ;;;
      w <- get ;;
      put (mkWorld (fs w) (dirs w) (delete (fileno f) (open_files w)) (log w))
  end.

(** [path.read_bytes()], [path.write_bytes(data)] and [path.unlink()]. *)
Definition read_bytes (p : Path) : M bytes :=
  f <- builtins_open InReadBytes p "rb" ;;
  data <- file_read f ;;
  file_exit f ;;;
  ret data.

Definition write_bytes (p : Path) (data : bytes) : M unit :=
  f <- builtins_open InWriteBytes p "wb" ;;
  file_write f data ;;;
  file_exit f.

Definition unlink (p : Path) : M unit :=
  emit (EvUnlink p) ;;;
  w <- get ;;
  if is_file p w then set_fs (delete p (fs w)) else raise (FileNotFoundError p).

(** *** The module proper *)

Inductive OnError := Raise | Warn | Ignore.

#[global] Instance OnError_eq_dec : EqDecision OnError.
Proof. solve_decision. Defined.

(** [class _HashFileWrapper]. *)
Record _HashFileWrapper := mkWrapper {
  file : File;
  path : option Path;
  hash_path : option Path;
  hash_name : string }.

(** [any(m in mode for m in "wa")]. *)
Definition write_or_append (mode : string) : bool :=
  existsb (fun m => Py.char_in m mode) (list_ascii_of_string "wa").

(** The digest file of a path: lines 111 and 112 of [hash_open]. *)
Definition hash_suffix_of (p : Path) (hash_name : string) : string :=
  if negb (String.eqb (suffix p) "") then "." +:+ suffix p +:+ "." +:+ hash_name
  else "." +:+ hash_name.

Definition hash_path_of (p : Path) (hash_name : string) : PathError + Path :=
  with_suffix p (hash_suffix_of p hash_name).

Section Hashlib.

(** [hashlib]: the algorithms it knows, each a function from the data to the
    raw digest; [None] for a name [hashlib.new] rejects. *)
Context (hashlib : string -> option (bytes -> bytes)).

(** [hashlib.new(name, usedforsecurity=False)], for its check of the name. *)
Definition hashlib_new (name : string) : M (bytes -> bytes) :=
  match hashlib name with
  | Some h => ret h
  | None => raise (ValueError_unsupported_hash name)
  end.

(** [path_digest]: the file is opened before [hashlib.file_digest] looks at
    the algorithm, and the [with] block closes it on every way out. *)
Definition path_digest (p : Path) (digest : string) : M bytes :=
  fp <- builtins_open InPathDigest p "rb" ;;
  match hashlib digest with
  | None => file_exit fp ;;; raise (ValueError_unsupported_hash digest)
  | Some h =>
      data <- file_read fp ;;
      file_exit fp ;;;
      ret (h data)
  end.

(** [validate_path]. *)
Definition validate_path (p : Path) (digest : string) (expected : bytes)
    (on_error : OnError) : M unit :=
  actual <- path_digest p digest ;;
  if negb (bool_decide (expected = actual)) then
    match on_error with
    | Raise => raise (OSError_modified p expected actual)
    | Warn => emit (EvWarn p expected actual)
    | Ignore => raise AssertionError
    end
  else ret tt.

(** [_HashFileWrapper.__enter__] and [__exit__]. *)
Definition __enter__ (self : _HashFileWrapper) : M File := ret (file self).

Definition __exit__ (self : _HashFileWrapper) : M unit :=
  file_exit (file self) ;;;
  match path self, hash_path self with
  | Some p, Some hp =>
      d <- path_digest p (hash_name self) ;;
      write_bytes hp d
  | _, _ => ret tt
  end.

(** [hash_open], the closure [wrap_open] returns, with the three keyword
    arguments of [wrap_open] it captures; [file] and [mode] are the bound
    arguments of the call. *)
Definition hash_open (hash_on_write : bool) (on_error : OnError) (hash_name : string)
    (file : Path) (mode : string) : M _HashFileWrapper :=
  hashlib_new hash_name ;;;
  match hash_path_of file hash_name with
  | inl e => raise (ValueError_path e)
  | inr hash_path =>
      w <- get ;;
      (if negb (bool_decide (on_error = Ignore)) && is_file file w && is_file hash_path w
       then expected <- read_bytes hash_path ;;
            validate_path file hash_name expected on_error
       else ret tt) ;;;
      w <- get ;;
      (if write_or_append mode && is_file hash_path w
       then unlink hash_path else ret tt) ;;;
      f <- builtins_open InHashOpen file mode ;;
      if write_or_append mode && hash_on_write
      then ret (mkWrapper f (Some file) (Some hash_path) hash_name)
      else ret (mkWrapper f None None "sha256")
  end.

(** [wrap_open]: only [builtins.open] itself can be wrapped. *)
Inductive Callable := BuiltinsOpen | OtherCallable.

Definition wrap_open (open : Callable) (hash_on_write : bool) (on_error : OnError)
    (hash_name : string) : Exn + (Path -> string -> M _HashFileWrapper) :=
  match open with
  | BuiltinsOpen => inr (hash_open hash_on_write on_error hash_name)
  | OtherCallable => inl TypeError_not_builtins_open
  end.

(** [open = wrap_open(builtins.open)], and the default mode of [open]. *)
Definition default_mode : string := "r".

Definition open : Path -> string -> M _HashFileWrapper := hash_open true Raise "sha256".

(** [with hash_open(file, mode) as f: f.write(data)]: the body raises
    nothing else, and [__exit__] runs on every way out of the block. *)
Definition with_write (hash_on_write : bool) (on_error : OnError) (hash_name : string)
    (file : Path) (mode : string) (data : bytes) : M unit :=
  wrapper <- hash_open hash_on_write on_error hash_name file mode ;;
  f <- __enter__ wrapper ;;
  fun w => match file_write f data w with
           | (inl e, w') => match __exit__ wrapper w' with
                            | (inl e', w'') => (inl e', w'')
                            | (inr _, w'') => (inl e, w'')
                            end
           | (inr _, w') => __exit__ wrapper w'
           end.

End Hashlib.

(** The algorithm table with SHA-256 alone in it.  The facts proved below hold
    for every table; this one runs the scenarios of [tests/io/test_hashio.py]. *)
Definition hashlib_sha256 (name : string) : option (bytes -> bytes) :=
  if String.eqb name "sha256" then Some Sha256.sha256 else None.

End HashIO.

(** ** [arm5/io/csv.py] *)

Module Csv.

(** The object [csv.reader] returns, seen from [DictReader]: the rows it has
    still to yield and its [line_num].  Parsing text into rows is the standard
    library's; a row is counted as one line. *)
Record Reader := mkReader { rows : list (list string); reader_line_num : nat }.

(** [next(reader)]: [None] for [StopIteration]. *)
Definition reader_next (r : Reader) : option (list string * Reader) :=
  match rows r with
  | [] => None
  | row :: rest => Some (row, mkReader rest (S (reader_line_num r)))
  end.

(** [class DictReader]. *)
Record DictReader := mkDictReader {
  reader : Reader;
  missing_value : option string;
  line_num : nat;
  _fieldnames : option (list string) }.

(** [DictReader.from_file], on the rows [csv.reader] gives for the file. *)
Definition from_rows (rs : list (list string)) (missing : option string) : DictReader :=
  mkDictReader (mkReader rs O) missing O None.

(** The [fieldnames] property: its value and the reader after the call. *)
Definition fieldnames (self : DictReader) : option (list string) * DictReader :=
  let self1 :=
    match _fieldnames self with
    | None =>
        match reader_next (reader self) with
        | Some (row, r) => mkDictReader r (missing_value self) (line_num self) (Some row)
        | None => self
        end
    | Some _ => self
    end in
  let self2 := mkDictReader (reader self1) (missing_value self1)
                            (reader_line_num (reader self1)) (_fieldnames self1) in
  (_fieldnames self2, self2).

(** The [fieldnames] setter. *)
Definition set_fieldnames (self : DictReader) (value : list string) : DictReader :=
  mkDictReader (reader self) (missing_value self) (line_num self) (Some value).

(** [while row == []: row = next(self.reader)]. *)
Fixpoint skip_blank (row : list string) (rest : list (list string)) (n : nat)
  : option (list string * Reader) :=
  match row with
  | _ :: _ => Some (row, mkReader rest n)
  | [] =>
      match rest with
      | [] => None
      | row' :: rest' => skip_blank row' rest' (S n)
      end
  end.

(** [dict(pairs)]: a later pair replaces an earlier one with the same key. *)
Definition dict_of (pairs : list (string * string)) : gmap string string :=
  fold_left (fun d kv => <[kv.1 := kv.2]> d) pairs ∅.

(** Lines 67 to 69 of [__next__]: empty strings become the missing value, and
    the pairs whose value is [None] are left out of the dict. *)
Definition cell (missing : option string) (s : string) : option string :=
  if Nat.eqb (String.length s) 0 then missing else Some s.

Definition keep_pair (fv : string * option string) : option (string * string) :=
  match snd fv with Some v => Some (fst fv, v) | None => None end.

Definition row_to_dict (missing : option string) (names row : list string)
  : gmap string string :=
  let row := map (cell missing) row in
  dict_of (omap keep_pair (combine names row)).

Inductive Stop := StopIteration | TypeError.

(** [DictReader.__next__]. *)
Definition __next__ (self : DictReader) : (Stop + gmap string string) * DictReader :=
  let self := if Nat.eqb (line_num self) 0 then snd (fieldnames self) else self in
  match reader_next (reader self) with
  | None => (inl StopIteration, self)
  | Some (row, r) =>
      let self := mkDictReader r (missing_value self) (reader_line_num r) (_fieldnames self) in
      match skip_blank row (rows r) (reader_line_num r) with
      | None =>
          (inl StopIteration,
           mkDictReader (mkReader [] (reader_line_num r + length (rows r)))
                        (missing_value self) (line_num self) (_fieldnames self))
      | Some (row, r) =>
          let self := mkDictReader r (missing_value self) (line_num self) (_fieldnames self) in
          match fieldnames self with
          | (Some names, self) => (inr (row_to_dict (missing_value self) names row), self)
          | (None, self) => (inl TypeError, self)
          end
      end
  end.

(** [list(reader)]: call [__next__] until it stops.  [fuel] bounds the number
    of calls; a reader with [n] rows left stops within [n + 1] calls. *)
Fixpoint collect (fuel : nat) (self : DictReader) : option (Stop + list (gmap string string)) :=
  match fuel with
  | O => None
  | S fuel' =>
      match __next__ self with
      | (inl StopIteration, _) => Some (inr [])
      | (inl TypeError, _) => Some (inl TypeError)
      | (inr d, self') =>
          match collect fuel' self' with
          | Some (inr ds) => Some (inr (d :: ds))
          | other => other
          end
      end
  end.

(** [read], on the rows of the file. *)
Definition read_rows (rs : list (list string)) : option (Stop + list (gmap string string)) :=
  collect (S (length rs)) (from_rows rs None).

End Csv.

(** * What the properties are stated with *)

Module Vocabulary.

(** The lexicographic order on (year, declaration rank), as a proposition. *)
Definition key (p : Times.YearSeason) : Z * Z :=
  (Times.year p, Times._enumeration_order (Times.season p)).

Definition lex_lt (k1 k2 : Z * Z) : Prop :=
  fst k1 < fst k2 \/ (fst k1 = fst k2 /\ snd k1 < snd k2).

Definition lex_le (k1 k2 : Z * Z) : Prop :=
  fst k1 < fst k2 \/ (fst k1 = fst k2 /\ snd k1 <= snd k2).

(** [m] answers to [v]: [v] is its value or one of its aliases. *)
Definition answers_to {M} (value_of : M -> string) (aliases_of : M -> list string)
    (m : M) (v : string) : Prop :=
  value_of m = v \/ In v (aliases_of m).

(** [s] is a case-insensitive prefix of [n]. *)
Definition ci_prefix (s n : string) : Prop :=
  exists rest, Py.lower n = Py.lower s +:+ rest.

(** What the claim asks of [cls(value)] on strings, for a flag class given by
    its members and their names. *)
Definition prefix_lookup (M : Type) `{Countable M} (members : list M) (name : M -> string)
    (call : string -> Pyarm5.StrFlagError M + M) : Prop :=
  forall s : string,
    (forall m, In m members -> ci_prefix s (name m) ->
               (forall m', In m' members -> ci_prefix s (name m') -> m' = m) ->
               call s = inr m)
    /\ (forall m1 m2, In m1 members -> In m2 members -> m1 <> m2 ->
                      ci_prefix s (name m1) -> ci_prefix s (name m2) ->
                      exists matching : gset M,
                        call s = inl (Pyarm5.Ambiguous (Py.lower s) matching)
                        /\ forall m, m ∈ matching <-> In m members /\ ci_prefix s (name m))
    /\ ((forall m, In m members -> ~ ci_prefix s (name m)) ->
        exists valid : gset M,
          call s = inl (Pyarm5.Invalid (Py.lower s) valid)
          /\ forall m, m ∈ valid <-> In m members).

End Vocabulary.

(** The phases of [hash_open], for the proofs about it. *)
Module HashOpenPhases.
Import HashIO.

Section Hashlib.
Context (hashlib : string -> option (bytes -> bytes)).

(** The body of [hash_open] once the digest path is known: the validation
    block, then the rest. *)
Definition validation (on_error : OnError) (hash_name : string) (file hp : Path) : M unit :=
  w <- get ;;
  if negb (bool_decide (on_error = Ignore)) && is_file file w && is_file hp w
  then expected <- read_bytes hp ;;
       validate_path hashlib file hash_name expected on_error
  else ret tt.

Definition opening (hash_on_write : bool) (hash_name : string) (file hp : Path)
    (mode : string) : M _HashFileWrapper :=
  w <- get ;;
  (if write_or_append mode && is_file hp w then unlink hp else ret tt) ;;;
  f <- builtins_open InHashOpen file mode ;;
  if write_or_append mode && hash_on_write
  then ret (mkWrapper f (Some file) (Some hp) hash_name)
  else ret (mkWrapper f None None "sha256").

End Hashlib.

(** The world in which [opening] calls [open]: the digest file is gone if the
    mode writes or appends. *)
Definition before_open (hp : Path) (mode : string) (w : World) : World :=
  if write_or_append mode && is_file hp w
  then mkWorld (delete hp (fs w)) (dirs w) (open_files w) (log w ++ [EvUnlink hp])
  else w.

(** The stored digest of [file] disagrees with its contents. *)
Definition mismatch (h : bytes -> bytes) (file hp : Path) (w : World) : Prop :=
  exists c stored, fs w !! file = Some c /\ fs w !! hp = Some stored /\ stored <> h c.

(** The events the validation block can log. *)
Definition validation_event (e : Event) : Prop :=
  match e with
  | EvOpen InReadBytes _ _ | EvOpen InPathDigest _ _ | EvWarn _ _ _ => True
  | _ => False
  end.

(** The byte strings of [tests/io/test_hashio.py]. *)
Definition b123456 : bytes := [Byte.x31; Byte.x32; Byte.x33; Byte.x34; Byte.x35; Byte.x36].
Definition b12345 : bytes := [Byte.x31; Byte.x32; Byte.x33; Byte.x34; Byte.x35].

(** The digest [test_path_digest] expects for [b"123456"]. *)
Definition sha256_of_123456 : bytes :=
  [Byte.x8d; Byte.x96; Byte.x9e; Byte.xef; Byte.x6e; Byte.xca; Byte.xd3; Byte.xc2;
   Byte.x9a; Byte.x3a; Byte.x62; Byte.x92; Byte.x80; Byte.xe6; Byte.x86; Byte.xcf;
   Byte.x0c; Byte.x3f; Byte.x5d; Byte.x5a; Byte.x86; Byte.xaf; Byte.xf3; Byte.xca;
   Byte.x12; Byte.x02; Byte.x0c; Byte.x92; Byte.x3a; Byte.xdc; Byte.x6c; Byte.x92].

Definition testfile : Path := mkPath ["tmp"] "testfile".
Definition testfile_sha256 : Path := mkPath ["tmp"] "testfile.sha256".


(** [testfile] holds [b"123456"], its digest file holds [b"12345"]. *)
Definition tampered_world : World :=
  mkWorld (<[testfile := b123456]> (<[testfile_sha256 := b12345]> ∅)) {[ ["tmp"] ]} ∅ [].

End HashOpenPhases.

(** More of what the properties are stated with. *)
Module ExtraVocabulary.

(** [testfile] holds [b"123456"] and its digest file the SHA-256 of that. *)
Definition valid_world : HashIO.World :=
  HashIO.mkWorld
    (<[HashOpenPhases.testfile := HashOpenPhases.b123456]>
       (<[HashOpenPhases.testfile_sha256 := HashOpenPhases.sha256_of_123456]> ∅))
    {[ ["tmp"] ]} ∅ [].

(** A row that is not blank: [row != []]. *)
Definition nonblank (row : list string) : bool :=
  match row with [] => false | _ => true end.

End ExtraVocabulary.

(** * Properties *)

(** ** Lists, ranges and sorting *)

Module PyFacts.

Lemma range_In (a b y : Z) : In y (Py.range a b) <-> a <= y < b.
Proof.
  unfold Py.range. rewrite in_map_iff. split.
  - intros (i & <- & Hi). apply in_seq in Hi. lia.
  - intros Hy. exists (Z.to_nat (y - a)). split; [lia|].
    apply in_seq. lia.
Qed.

Lemma range_empty (a b : Z) : b <= a -> Py.range a b = [].
Proof.
  intros Hab. unfold Py.range.
  replace (Z.to_nat (b - a)) with O by lia. reflexivity.
Qed.

Lemma range_cons (a b : Z) : a < b -> Py.range a b = a :: Py.range (a + 1) b.
Proof.
  intros Hab. unfold Py.range.
  replace (Z.to_nat (b - a)) with (S (Z.to_nat (b - (a + 1)))) by lia.
  cbn [seq map]. f_equal; [lia|].
  rewrite <- seq_shift, map_map. apply map_ext. intros i. lia.
Qed.

Lemma StronglySorted_app {A} (R : A -> A -> Prop) (l1 l2 : list A) :
  StronglySorted R l1 -> StronglySorted R l2 ->
  (forall x y, In x l1 -> In y l2 -> R x y) ->
  StronglySorted R (l1 ++ l2).
Proof.
  induction l1 as [|x l1 IH]; intros H1 H2 H12; [exact H2|].
  apply StronglySorted_inv in H1 as [H1 Hx].
  cbn. constructor.
  - apply IH; [assumption..|]. intros; apply H12; [right|]; assumption.
  - apply List.Forall_app. split; [assumption|].
    apply List.Forall_forall. intros y Hy. apply H12; [left; reflexivity|assumption].
Qed.

Section InsertionSort.
Context {A : Type} (lt : A -> A -> bool) (le : A -> A -> Prop).
Hypothesis lt_le : forall x y, lt x y = true -> le x y.
Hypothesis not_lt_le : forall x y, lt x y = false -> le y x.
Hypothesis le_trans : forall x y z, le x y -> le y z -> le x z.

Lemma insert_perm (x : A) (l : list A) : Permutation (x :: l) (Py.insert lt x l).
Proof.
  induction l as [|y l IH]; cbn; [reflexivity|].
  destruct (lt x y); [reflexivity|].
  rewrite perm_swap. constructor. exact IH.
Qed.

Lemma insert_sorted (x : A) (l : list A) :
  StronglySorted le l -> StronglySorted le (Py.insert lt x l).
Proof.
  induction l as [|y l IH]; intros Hs; cbn.
  - repeat constructor.
  - apply StronglySorted_inv in Hs as [Hs Hy].
    destruct (lt x y) eqn:Hxy.
    + constructor; [constructor; assumption|].
      constructor; [auto|].
      eapply List.Forall_impl; [|exact Hy]. intros z Hz. eapply le_trans; eauto.
    + constructor; [auto|].
      eapply Permutation_Forall; [apply insert_perm|].
      constructor; auto.
Qed.

Lemma sorted_acc (l acc : list A) :
  StronglySorted le acc ->
  let r := fold_left (fun acc x => Py.insert lt x acc) l acc in
  Permutation (acc ++ l) r /\ StronglySorted le r.
Proof.
  revert acc. induction l as [|x l IH]; intros acc Hacc; cbn.
  - rewrite app_nil_r. split; [reflexivity|assumption].
  - destruct (IH (Py.insert lt x acc) (insert_sorted x acc Hacc)) as [Hp Hs].
    split; [|exact Hs].
    rewrite <- Hp. rewrite <- insert_perm.
    symmetry. apply Permutation_middle.
Qed.

Lemma sorted_spec (l : list A) :
  Permutation l (Py.sorted lt l) /\ StronglySorted le (Py.sorted lt l).
Proof. apply (sorted_acc l []). constructor. Qed.

End InsertionSort.

End PyFacts.

(** ** Seasons and periods *)

Module TimesSpec.
Import Times Vocabulary.

Lemma enumeration_order_found (s : Seasons) :
  is_Some (Py.list_index s (map snd __members__)).
Proof. destruct s; eexists; reflexivity. Qed.

Lemma enumeration_order_values :
  _enumeration_order SPRING = 0 /\ _enumeration_order SUMMER = 1 /\
  _enumeration_order AUTUMN = 2 /\ _enumeration_order WINTER = 3.
Proof. repeat split. Qed.

Lemma enumeration_order_inj (s t : Seasons) :
  _enumeration_order s = _enumeration_order t -> s = t.
Proof. destruct s, t; cbv; congruence. Qed.

Lemma eq_spec (a b : YearSeason) :
  eq a b = true <-> year a = year b /\ season a = season b.
Proof.
  unfold eq, season_eq. rewrite andb_true_iff, Z.eqb_eq, bool_decide_eq_true.
  reflexivity.
Qed.

Lemma eq_iff (a b : YearSeason) : eq a b = true <-> a = b.
Proof.
  rewrite eq_spec. destruct a, b; cbn. split.
  - intros [-> ->]; reflexivity.
  - intros [= -> ->]; split; reflexivity.
Qed.

Lemma lt_spec (a b : YearSeason) : lt a b = true <-> lex_lt (key a) (key b).
Proof.
  unfold lt, season_lt, lex_lt, key; cbn.
  rewrite orb_true_iff, andb_true_iff, !Z.ltb_lt, Z.eqb_eq. reflexivity.
Qed.

Lemma lt_false (a b : YearSeason) : lt a b = false <-> lex_le (key b) (key a).
Proof.
  rewrite <- not_true_iff_false, lt_spec. unfold lex_lt, lex_le, key; cbn. lia.
Qed.

Lemma le_spec (a b : YearSeason) : le a b = true <-> lex_le (key a) (key b).
Proof.
  unfold le. rewrite orb_true_iff, lt_spec, eq_spec.
  unfold lex_lt, lex_le, key; cbn. split.
  - intros [H|[H1 H2]]; [lia|]. rewrite H1, H2. lia.
  - intros [H|[H1 H2]]; [lia|].
    destruct (Z.eq_dec (_enumeration_order (season a)) (_enumeration_order (season b)))
      as [He|Hne].
    + right. split; [assumption|]. apply enumeration_order_inj, He.
    + left. lia.
Qed.

Lemma gt_flip (a b : YearSeason) : gt a b = lt b a.
Proof.
  apply eq_true_iff_eq. unfold gt.
  rewrite andb_true_iff, !negb_true_iff, lt_false, lt_spec.
  rewrite <- not_true_iff_false, eq_spec.
  unfold lex_lt, lex_le, key; cbn. split.
  - intros [[H|[H1 H2]] Hne]; [lia|].
    destruct (Z.eq_dec (_enumeration_order (season a)) (_enumeration_order (season b)))
      as [He|Hn]; [|lia].
    exfalso. apply Hne. split; [congruence|]. apply enumeration_order_inj, He.
  - intros H. split; [lia|]. intros [H1 H2]. rewrite H2 in H. lia.
Qed.

Lemma lex_le_trans (x y z : Z * Z) : lex_le x y -> lex_le y z -> lex_le x z.
Proof. unfold lex_le. lia. Qed.

End TimesSpec.

(** ** [iter_between] *)

Module IterBetweenSpec.
Import Times Vocabulary TimesSpec.

Lemma In_members (s : Seasons) : In s members.
Proof. destruct s; cbn; tauto. Qed.

(** One pass over [Seasons] in a fixed year, under a filter. *)
Lemma In_year_pass (P : Seasons -> Prop) `{forall s, Decision (P s)} (y : Z) (p : YearSeason) :
  In p (map (mkYearSeason y) (filter P members)) <-> year p = y /\ P (season p).
Proof.
  rewrite in_map_iff. split.
  - intros (s & <- & Hs). apply list_elem_of_In, list_elem_of_filter in Hs. tauto.
  - intros [<- HP]. exists (season p). split; [destruct p; reflexivity|].
    apply list_elem_of_In, list_elem_of_filter. split; [assumption|].
    apply list_elem_of_In, In_members.
Qed.

Lemma In_whole_years (ys : list Z) (p : YearSeason) :
  In p (flat_map (fun y => map (mkYearSeason y) members) ys) <-> In (year p) ys.
Proof.
  rewrite in_flat_map. split.
  - intros (y & Hy & Hp). apply in_map_iff in Hp as (s & <- & _). exact Hy.
  - intros Hy. exists (year p). split; [assumption|].
    apply in_map_iff. exists (season p). split; [destruct p; reflexivity|apply In_members].
Qed.

(** What the three loops yield, whatever the years are. *)
Lemma In_iter_between (start end_ p : YearSeason) :
  lt end_ start = false ->
  In p (iter_between start end_) <->
    (year p = year start /\ _enumeration_order (season start) <= _enumeration_order (season p))
    \/ (year start < year p < year end_)
    \/ (year p = year end_ /\ _enumeration_order (season p) <= _enumeration_order (season end_)).
Proof.
  intros Hlt. unfold iter_between. rewrite Hlt.
  rewrite !in_app_iff, !In_year_pass, In_whole_years, PyFacts.range_In.
  unfold season_ge, season_le. rewrite Z.geb_le, Z.leb_le. lia.
Qed.

Lemma iter_between_empty (start end_ : YearSeason) :
  lt end_ start = true -> iter_between start end_ = [].
Proof. intros H. unfold iter_between. rewrite H. reflexivity. Qed.

(** With the bounds in different years the enumeration is the inclusive
    range. *)
Lemma iter_between_distinct_years_In (start end_ p : YearSeason) :
  year start < year end_ ->
  In p (iter_between start end_) <-> le start p = true /\ le p end_ = true.
Proof.
  intros Hy. rewrite In_iter_between.
  - rewrite !le_spec. unfold lex_le, key; cbn. lia.
  - apply lt_false. unfold lex_le, key; cbn. lia.
Qed.

Lemma year_pass_sorted (P : Seasons -> Prop) `{forall s, Decision (P s)} (y : Z) :
  StronglySorted (fun a b => lt a b = true) (map (mkYearSeason y) (filter P members)).
Proof.
  unfold members. rewrite !filter_cons, filter_nil.
  repeat case_decide; cbn;
    repeat (constructor; try (cbv [lt year season season_lt]; rewrite Z.ltb_irrefl, Z.eqb_refl;
                              reflexivity)).
Qed.

Lemma whole_years_sorted (a b : Z) :
  StronglySorted (fun a b => lt a b = true)
    (flat_map (fun y => map (mkYearSeason y) members) (Py.range a b)).
Proof.
  remember (Z.to_nat (b - a)) as n eqn:Hn. revert a Hn.
  induction n as [|n IH]; intros a Hn.
  - rewrite PyFacts.range_empty by lia. constructor.
  - rewrite PyFacts.range_cons by lia. cbn [flat_map].
    apply PyFacts.StronglySorted_app.
    + exact (year_pass_sorted (fun _ => True) a).
    + apply IH. lia.
    + intros x y Hx Hy. apply in_map_iff in Hx as (s & <- & _).
      apply In_whole_years, PyFacts.range_In in Hy.
      apply lt_spec. left. cbn. lia.
Qed.

Lemma iter_between_distinct_years_sorted (start end_ : YearSeason) :
  year start < year end_ ->
  StronglySorted (fun a b => lt a b = true) (iter_between start end_).
Proof.
  intros Hy. unfold iter_between.
  replace (lt end_ start) with false
    by (symmetry; apply lt_false; unfold lex_le, key; cbn; lia).
  apply PyFacts.StronglySorted_app; [apply year_pass_sorted| |].
  - apply PyFacts.StronglySorted_app;
      [apply whole_years_sorted|apply year_pass_sorted|].
    intros x y Hx Hy'. apply In_whole_years, PyFacts.range_In in Hx.
    apply In_year_pass in Hy' as [Hy' _]. apply lt_spec. left. cbn. lia.
  - intros x y Hx Hy'. apply In_year_pass in Hx as [Hx _].
    apply lt_spec. left. cbn.
    apply in_app_iff in Hy' as [Hy'|Hy'].
    + apply In_whole_years, PyFacts.range_In in Hy'. lia.
    + apply In_year_pass in Hy' as [Hy' _]. lia.
Qed.

(** With both bounds in one year the first and the third loop run over that
    same year, each under its own filter only. *)
Lemma iter_between_same_year (start end_ : YearSeason) :
  year start = year end_ -> lt end_ start = false ->
  iter_between start end_ =
    map (mkYearSeason (year start))
        (filter (fun s => season_ge s (season start) = true) members)
    ++ map (mkYearSeason (year start))
           (filter (fun s => season_le s (season end_) = true) members).
Proof.
  intros Hy Hlt. unfold iter_between. rewrite Hlt, <- Hy.
  rewrite PyFacts.range_empty by lia. reflexivity.
Qed.

Lemma iter_between_same_year_length (start end_ : YearSeason) :
  year start = year end_ -> lt end_ start = false ->
  Z.of_nat (length (iter_between start end_)) =
    (_enumeration_order (season end_) - _enumeration_order (season start) + 1) + 4.
Proof.
  intros Hy Hlt. rewrite iter_between_same_year by assumption.
  apply lt_false in Hlt. unfold lex_le, key in Hlt; cbn in Hlt.
  destruct start as [y1 s1], end_ as [y2 s2]; cbn in *.
  destruct s1, s2; vm_compute; try reflexivity;
    exfalso; vm_compute in Hlt; lia.
Qed.

Lemma iter_between_same_year_dup (start end_ : YearSeason) :
  year start = year end_ -> lt end_ start = false ->
  ~ NoDup (iter_between start end_).
Proof.
  intros Hy Hlt Hnd. rewrite iter_between_same_year in Hnd by assumption.
  apply lt_false in Hlt. unfold lex_le, key in Hlt; cbn in Hlt.
  apply NoDup_app in Hnd as (_ & Hdisj & _).
  apply (Hdisj start).
  - apply list_elem_of_In, In_year_pass. split; [reflexivity|].
    unfold season_ge. apply Z.geb_le. lia.
  - apply list_elem_of_In, In_year_pass. split; [reflexivity|].
    unfold season_le. apply Z.leb_le. lia.
Qed.

End IterBetweenSpec.

(** ** The claims about periods *)

Module TimesClaims.
Import Times Vocabulary TimesSpec IterBetweenSpec.

(** C1.  [iter_between(start, end)] is meant to yield each period between the
    bounds once, so one element when [start == end].  With both bounds in one
    year the first and the third loop both run over that year: for
    [start = end = (1, spring)] the code yields five elements, the four
    seasons of year 1 and then [(1, spring)] a second time.  The sequence is
    neither duplicate-free nor strictly ascending, and its length is not 1. *)
Theorem iter_between_single_period_yields_five :
  let p := mkYearSeason 1 SPRING in
  iter_between p p =
    [mkYearSeason 1 SPRING; mkYearSeason 1 SUMMER; mkYearSeason 1 AUTUMN;
     mkYearSeason 1 WINTER; mkYearSeason 1 SPRING]
  /\ length (iter_between p p) = 5%nat
  /\ ~ NoDup (iter_between p p).
Proof.
  cbv zeta. split; [reflexivity|]. split; [reflexivity|].
  apply iter_between_same_year_dup; reflexivity.
Qed.

(** C8.  From (2, autumn) to (4, summer) [iter_between] yields, in this
    order, (2, autumn), (2, winter), (3, spring), (3, summer), (3, autumn),
    (3, winter), (4, spring), (4, summer): eight elements. *)
Theorem iter_between_test_scenario :
  let start := mkYearSeason 2 AUTUMN in
  let end_ := mkYearSeason 4 SUMMER in
  iter_between start end_ =
    [mkYearSeason 2 AUTUMN; mkYearSeason 2 WINTER;
     mkYearSeason 3 SPRING; mkYearSeason 3 SUMMER;
     mkYearSeason 3 AUTUMN; mkYearSeason 3 WINTER;
     mkYearSeason 4 SPRING; mkYearSeason 4 SUMMER]
  /\ length (iter_between start end_) = 8%nat.
Proof. split; reflexivity. Qed.

(** C9.  For any two periods exactly one of [a < b], [a == b], [a > b]
    holds; [<] is the lexicographic order on (year, declaration rank of the
    season), with ranks 0 to 3 for spring to winter, and the operators that
    [total_ordering] derives agree with it; [a == b] holds iff year and season
    both match; sorting a list of periods gives a permutation of it in
    ascending (year, season) order. *)
Theorem YearSeason_total_order :
  (forall a b,
      (lt a b = true /\ eq a b = false /\ gt a b = false)
      \/ (lt a b = false /\ eq a b = true /\ gt a b = false)
      \/ (lt a b = false /\ eq a b = false /\ gt a b = true))
  /\ (forall a b, lt a b = true <-> lex_lt (key a) (key b))
  /\ (forall a b, le a b = true <-> lex_le (key a) (key b))
  /\ (forall a b, gt a b = lt b a)
  /\ (forall a b, ge a b = le b a)
  /\ (forall a b, eq a b = true <-> year a = year b /\ season a = season b)
  /\ (map _enumeration_order [SPRING; SUMMER; AUTUMN; WINTER] = [0; 1; 2; 3])
  /\ (forall l : list YearSeason,
         Permutation l (Py.sorted lt l)
         /\ StronglySorted (fun a b => lex_le (key a) (key b)) (Py.sorted lt l)).
Proof.
  split; [|split; [|split; [|split; [|split; [|split; [|split]]]]]].
  - intros a b. pose proof (gt_flip a b) as Hgt.
    destruct (lt a b) eqn:Hab, (eq a b) eqn:He, (gt a b) eqn:Hg; auto.
    all: try (apply eq_iff in He; subst b).
    all: try (apply lt_spec in Hab; unfold lex_lt in Hab; lia).
    + symmetry in Hgt. apply lt_spec in Hgt. apply lt_spec in Hab.
      unfold lex_lt in *. lia.
    + symmetry in Hgt. apply lt_spec in Hgt. unfold lex_lt in Hgt. lia.
    + exfalso. symmetry in Hgt. apply lt_false in Hab. apply lt_false in Hgt.
      apply not_true_iff_false in He. apply He, eq_spec.
      unfold lex_le, key in *; cbn in *.
      split; [lia|]. apply enumeration_order_inj. lia.
  - exact lt_spec.
  - exact le_spec.
  - exact gt_flip.
  - intros a b. apply eq_true_iff_eq. unfold ge.
    rewrite negb_true_iff, lt_false, le_spec. reflexivity.
  - exact eq_spec.
  - reflexivity.
  - intros l.
    apply (PyFacts.sorted_spec lt (fun a b => lex_le (key a) (key b))).
    + intros x y Hxy. apply le_spec. unfold le. rewrite Hxy. reflexivity.
    + intros x y Hxy. apply lt_false, Hxy.
    + intros x y z. apply lex_le_trans.
Qed.

End TimesClaims.

(** ** Strings *)

Module StringFacts.

Lemma ascii_lower_idem (c : ascii) : Py.ascii_lower (Py.ascii_lower c) = Py.ascii_lower c.
Proof.
  destruct c as [[] [] [] [] [] [] [] []]; reflexivity.
Qed.

Lemma lower_idem (s : string) : Py.lower (Py.lower s) = Py.lower s.
Proof.
  induction s as [|c s IH]; cbn; [reflexivity|].
  rewrite ascii_lower_idem, IH. reflexivity.
Qed.

Lemma lower_app (s t : string) : Py.lower (s +:+ t) = Py.lower s +:+ Py.lower t.
Proof. induction s as [|c s IH]; simpl; [reflexivity|]. rewrite IH. reflexivity. Qed.

Lemma append_cons (c : ascii) (s t : string) : String c s +:+ t = String c (s +:+ t).
Proof. reflexivity. Qed.

(** [s.startswith(p)] says that [s] is [p] followed by something. *)
Lemma startswith_iff (s p : string) :
  Py.startswith s p = true <-> exists rest, s = p +:+ rest.
Proof.
  unfold Py.startswith. revert s. induction p as [|a p IH]; intros s; cbn.
  - destruct s; split; eauto.
  - destruct s as [|b s]; simpl.
    + split; [discriminate|]. intros (rest & Hr). discriminate.
    + destruct (ascii_dec a b) as [->|Hne].
      * rewrite IH. split; intros (rest & Hr); exists rest.
        -- rewrite Hr. reflexivity.
        -- rewrite append_cons in Hr. congruence.
      * split; [discriminate|]. intros (rest & Hr). rewrite append_cons in Hr. congruence.
Qed.

Lemma startswith_empty (s : string) : Py.startswith s "" = true.
Proof. apply startswith_iff. exists s. reflexivity. Qed.

Lemma length_app (s t : string) :
  String.length (s +:+ t) = (String.length s + String.length t)%nat.
Proof. induction s as [|c s IH]; simpl; [reflexivity|]. rewrite IH. reflexivity. Qed.

End StringFacts.

(** ** The alias-aware enumerations *)

Module AliasEnumSpec.
Import Arm5Arts Vocabulary.

Section ArtEnumBase.
Context {M : Type} (members : list M) (declared : M -> string * list string).

Let value_of := _value_ declared.
Let aliases_of := _aliases_ declared.

(** No string is the value or an alias of two members. *)
Hypothesis disjoint : forall m m' v,
  In m members -> In m' members ->
  answers_to value_of aliases_of m v -> answers_to value_of aliases_of m' v -> m = m'.

Lemma value_lower (m : M) : Py.lower (value_of m) = value_of m.
Proof. apply StringFacts.lower_idem. Qed.

Lemma missing_test_iff (m : M) (v : string) :
  String.eqb (value_of m) v || bool_decide (v ∈ aliases_of m) = true
  <-> answers_to value_of aliases_of m v.
Proof.
  unfold answers_to.
  rewrite orb_true_iff, String.eqb_eq, bool_decide_eq_true, list_elem_of_In.
  reflexivity.
Qed.

Lemma call_any_case (m : M) (s : string) :
  In m members -> answers_to value_of aliases_of m (Py.lower s) ->
  call members declared s = inr m.
Proof.
  intros Hm Hs. unfold call.
  destruct (by_value members declared s) as [m'|] eqn:Hv.
  - apply find_some in Hv as [Hm' Hv]. apply String.eqb_eq in Hv.
    f_equal. apply (disjoint m' m (Py.lower s)); [assumption..| |assumption].
    left. rewrite <- Hv. symmetry. apply value_lower.
  - destruct (_missing_ members declared s) as [m'|] eqn:Hmiss.
    + apply find_some in Hmiss as [Hm' Hmiss]. apply missing_test_iff in Hmiss.
      f_equal. apply (disjoint m' m (Py.lower s)); assumption.
    + exfalso. apply (find_none _ _ Hmiss) in Hm.
      apply missing_test_iff in Hs. fold value_of aliases_of in Hm.
      rewrite Hs in Hm. discriminate.
Qed.

Lemma call_canonical (m : M) :
  In m members -> call members declared (value_of m) = inr m.
Proof.
  intros Hm. apply call_any_case; [assumption|]. left. symmetry. apply value_lower.
Qed.

End ArtEnumBase.

Lemma techniques_disjoint (m m' : HermeticTechniques) (v : string) :
  answers_to (_value_ technique_declared) (_aliases_ technique_declared) m v ->
  answers_to (_value_ technique_declared) (_aliases_ technique_declared) m' v -> m = m'.
Proof.
  unfold answers_to.
  destruct m; cbn; intros [<-|[<-|[]]]; destruct m'; cbn;
    intros [H'|[H'|[]]]; first [reflexivity|discriminate H'].
Qed.

Lemma forms_disjoint (m m' : HermeticForms) (v : string) :
  answers_to (_value_ form_declared) (_aliases_ form_declared) m v ->
  answers_to (_value_ form_declared) (_aliases_ form_declared) m' v -> m = m'.
Proof.
  unfold answers_to.
  destruct m; cbn; intros [<-|[<-|[]]]; destruct m'; cbn;
    intros [H'|[H'|[]]]; first [reflexivity|discriminate H'].
Qed.

Lemma In_techniques (m : HermeticTechniques) : In m techniques.
Proof. destruct m; cbn; tauto. Qed.

Lemma In_forms (m : HermeticForms) : In m forms.
Proof. destruct m; cbn; tauto. Qed.

(** C4, the counterexample.  ["SPRING"] is a casing of the canonical name of
    [Seasons.SPRING] and ["Fall"] a casing of the alias of [Seasons.AUTUMN],
    yet [Seasons] accepts neither: its [_missing_] compares the string as
    given. *)
Lemma Seasons_is_case_sensitive :
  Py.lower "SPRING" = Times._value_ Times.SPRING
  /\ Times.call "SPRING" = inl (Times.NotAValidMember "SPRING")
  /\ Times.call (Times._value_ Times.SPRING) = inr Times.SPRING
  /\ Times.call "SPRING" <> Times.call (Times._value_ Times.SPRING)
  /\ In (Py.lower "Fall") (Times._aliases_ Times.AUTUMN)
  /\ Times.call "Fall" = inl (Times.NotAValidMember "Fall")
  /\ Times.call (Times._value_ Times.AUTUMN) = inr Times.AUTUMN
  /\ Times.call "Fall" <> Times.call (Times._value_ Times.AUTUMN).
Proof.
  split; [reflexivity|]. split; [reflexivity|]. split; [reflexivity|].
  split; [discriminate|]. split; [left; reflexivity|].
  split; [reflexivity|]. split; [reflexivity|discriminate].
Qed.

(** What [Seasons(s)] returns answers to [s] as it is spelled. *)
Lemma Seasons_call_inv (s : string) (m : Times.Seasons) :
  Times.call s = inr m -> answers_to Times._value_ Times._aliases_ m s.
Proof.
  unfold Times.call.
  destruct (Times.by_value s) as [m'|] eqn:Hv.
  - intros [= <-]. apply find_some in Hv as [_ Hv]. left. apply String.eqb_eq, Hv.
  - destruct (Times._missing_ s) as [m'|] eqn:Hm; [|discriminate].
    intros [= <-]. apply find_some in Hm as [_ Hm]. right.
    apply bool_decide_eq_true in Hm. apply list_elem_of_In, Hm.
Qed.

Lemma Seasons_call_declared (s : string) (m : Times.Seasons) :
  answers_to Times._value_ Times._aliases_ m s -> Times.call s = inr m.
Proof.
  intros Hs. destruct m, Hs as [<-|Hs]; try reflexivity; cbn in Hs;
    try contradiction; destruct Hs as [<-|[]]; reflexivity.
Qed.

Lemma Seasons_call_rejects (s : string) :
  (forall m, ~ answers_to Times._value_ Times._aliases_ m s) ->
  Times.call s = inl (Times.NotAValidMember s).
Proof.
  intros Hnone. unfold Times.call.
  destruct (Times.by_value s) as [m|] eqn:Hv.
  { exfalso. apply (Hnone m), Seasons_call_inv. unfold Times.call. rewrite Hv. reflexivity. }
  destruct (Times._missing_ s) as [m|] eqn:Hm; [|reflexivity].
  exfalso. apply (Hnone m), Seasons_call_inv. unfold Times.call. rewrite Hv, Hm. reflexivity.
Qed.

(** The spellings [Seasons] declares are in lower case. *)
Lemma Seasons_declared_lower (s : string) (m : Times.Seasons) :
  answers_to Times._value_ Times._aliases_ m s -> Py.lower s = s.
Proof.
  intros Hs. destruct m, Hs as [<-|Hs]; try reflexivity; cbn in Hs;
    try contradiction; destruct Hs as [<-|[]]; reflexivity.
Qed.

(** C4, as amended.  [HermeticTechniques] and [HermeticForms] resolve every
    casing of a variant's canonical name or alias to that variant, the one its
    canonical lower-case name resolves to.  [Seasons] resolves a string to a
    variant exactly when the string is the canonical name or the alias of
    that variant as it is spelled in the class, in lower case; every other
    string, so every other casing of a name or an alias, is rejected with the
    unknown-value error of the enumeration, which carries the string. *)
Theorem alias_enums_resolve :
  (forall (m : HermeticTechniques) (s : string),
      answers_to (_value_ technique_declared) (_aliases_ technique_declared) m (Py.lower s) ->
      HermeticTechniques_call s = inr m
      /\ HermeticTechniques_call (_value_ technique_declared m) = inr m)
  /\ (forall (m : HermeticForms) (s : string),
      answers_to (_value_ form_declared) (_aliases_ form_declared) m (Py.lower s) ->
      HermeticForms_call s = inr m
      /\ HermeticForms_call (_value_ form_declared m) = inr m)
  /\ (forall (m : Times.Seasons) (s : string),
      (Times.call s = inr m <-> answers_to Times._value_ Times._aliases_ m s)
      /\ Times.call (Times._value_ m) = inr m)
  /\ (forall s : string,
      (forall m, ~ answers_to Times._value_ Times._aliases_ m s) ->
      Times.call s = inl (Times.NotAValidMember s))
  /\ (forall (m : Times.Seasons) (s : string),
      answers_to Times._value_ Times._aliases_ m (Py.lower s) -> s <> Py.lower s ->
      Times.call s = inl (Times.NotAValidMember s)).
Proof.
  split; [|split; [|split; [|split]]].
  4: exact Seasons_call_rejects.
  4: { intros m s _ Hcase. apply Seasons_call_rejects. intros m' Hs.
       apply Hcase. symmetry. apply (Seasons_declared_lower s m' Hs). }
  - intros m s Hs. split.
    + apply call_any_case; [|apply In_techniques|exact Hs].
      intros ? ? ? _ _. apply techniques_disjoint.
    + apply call_canonical; [|apply In_techniques].
      intros ? ? ? _ _. apply techniques_disjoint.
  - intros m s Hs. split.
    + apply call_any_case; [|apply In_forms|exact Hs].
      intros ? ? ? _ _. apply forms_disjoint.
    + apply call_canonical; [|apply In_forms].
      intros ? ? ? _ _. apply forms_disjoint.
  - intros m s. split; [|destruct m; reflexivity].
    split; [apply Seasons_call_inv|apply Seasons_call_declared].
Qed.

(** The amended C4 at ["CrEo"], ["VI"] and ["fall"], and at ["Fall"] and
    ["spring time"], which [Seasons] rejects. *)
Lemma alias_enums_resolve_witness :
  HermeticTechniques_call "CrEo" = inr CREO
  /\ HermeticForms_call "VI" = inr VIM
  /\ Times.call "fall" = inr Times.AUTUMN
  /\ Times.call "spring time" = inl (Times.NotAValidMember "spring time")
  /\ Times.call "Fall" = inl (Times.NotAValidMember "Fall").
Proof.
  destruct alias_enums_resolve as (Ht & Hf & Hs & Hnone & Hcase).
  split; [|split; [|split; [|split]]].
  - apply (Ht CREO "CrEo"). left. reflexivity.
  - apply (Hf VIM "VI"). right. cbn. left. reflexivity.
  - destruct (Hs Times.AUTUMN "fall") as [[_ Hfall] _].
    apply Hfall. right. cbn. left. reflexivity.
  - apply (Hnone "spring time").
    intros m [H|H]; destruct m; cbn in H; try discriminate H; try contradiction;
      destruct H as [H|[]]; discriminate H.
  - apply (Hcase Times.AUTUMN "Fall"); [right; cbn; left; reflexivity|discriminate].
Defined.

End AliasEnumSpec.

(** ** Prefix lookup in the combinable flags *)

Module StrFlagSpec.
Import Pyarm5 Vocabulary.

Lemma ci_prefix_test (s n : string) :
  Py.startswith (Py.lower n) (Py.lower s) = true <-> ci_prefix s n.
Proof. apply StringFacts.startswith_iff. Qed.

Section StrFlag.
Context {M : Type} `{Countable M} (members : list M) (name : M -> string).

Lemma elem_of_matches (m : M) (s : string) :
  m ∈ matches members name (Py.lower s) <-> In m members /\ ci_prefix s (name m).
Proof.
  unfold matches.
  rewrite elem_of_list_to_set, list_elem_of_filter, list_elem_of_In, ci_prefix_test.
  tauto.
Qed.

Lemma call_unique (s : string) (m : M) :
  In m members -> ci_prefix s (name m) ->
  (forall m', In m' members -> ci_prefix s (name m') -> m' = m) ->
  call members name s = inr m.
Proof.
  intros Hm Hp Huniq. unfold call, _missing_.
  assert (matches members name (Py.lower s) = {[ m ]}) as ->.
  { apply set_eq. intros m'. rewrite elem_of_matches, elem_of_singleton. split.
    - intros [? ?]. auto.
    - intros ->. auto. }
  rewrite size_singleton. unfold set_pop. rewrite elements_singleton. reflexivity.
Qed.

Lemma call_ambiguous (s : string) (m1 m2 : M) :
  In m1 members -> In m2 members -> m1 <> m2 ->
  ci_prefix s (name m1) -> ci_prefix s (name m2) ->
  call members name s = inl (Ambiguous (Py.lower s) (matches members name (Py.lower s))).
Proof.
  intros H1 H2 Hne Hp1 Hp2. unfold call, _missing_.
  assert (2 <= size (matches members name (Py.lower s)))%nat as Hsz.
  { replace 2%nat with (size ({[ m1 ]} ∪ {[ m2 ]} : gset M)).
    - apply subseteq_size. intros m'. rewrite elem_of_union, !elem_of_singleton.
      intros [-> | ->]; apply elem_of_matches; auto.
    - rewrite size_union by set_solver. rewrite !size_singleton. reflexivity. }
  destruct (size (matches members name (Py.lower s))) as [|[|n]]; [lia..|reflexivity].
Qed.

Lemma call_invalid (s : string) :
  (forall m, In m members -> ~ ci_prefix s (name m)) ->
  call members name s = inl (Invalid (Py.lower s) (list_to_set members)).
Proof.
  intros Hnone. unfold call, _missing_.
  assert (matches members name (Py.lower s) = ∅) as ->.
  { apply set_eq. intros m'. rewrite elem_of_matches. split.
    - intros [? ?]. exfalso. eapply Hnone; eauto.
    - intros ?%not_elem_of_empty. contradiction. }
  rewrite size_empty. reflexivity.
Qed.

End StrFlag.

End StrFlagSpec.

Module StrFlagClaims.
Import Pyarm5 Vocabulary StrFlagSpec.

Lemma prefix_lookup_holds {M : Type} `{Countable M} (members : list M) (name : M -> string) :
  prefix_lookup M members name (call members name).
Proof.
  intros s. split; [|split].
  - intros m. apply call_unique.
  - intros m1 m2 H1 H2 Hne Hp1 Hp2.
    exists (matches members name (Py.lower s)). split.
    + apply (call_ambiguous members name s m1 m2); assumption.
    + intros m. apply elem_of_matches.
  - intros Hnone. exists (list_to_set members). split.
    + apply call_invalid, Hnone.
    + intros m. rewrite elem_of_list_to_set. apply list_elem_of_In.
Qed.

(** C7.  For [HermeticTechnique] and [HermeticForm], a string that is a
    case-insensitive prefix of the name of exactly one variant gives that
    variant; one that is a prefix of the names of two or more variants raises
    the ambiguous-value error, which carries exactly the matching variants;
    one that is a prefix of no name raises the invalid-value error, which
    carries all the variants. *)
Theorem StrFlag_prefix_lookup :
  prefix_lookup HermeticTechnique techniques technique_name HermeticTechnique_call
  /\ prefix_lookup HermeticForm forms form_name HermeticForm_call.
Proof. split; apply prefix_lookup_holds. Qed.

(** C7 at ["Cr"] (only CREO), at ["a"] (ANIMAL, AQUAM and AURAM) and at
    ["x"] (no technique). *)
Lemma StrFlag_prefix_lookup_witness :
  HermeticTechnique_call "Cr" = inr CREO
  /\ (exists matching : gset HermeticForm,
        HermeticForm_call "a" = inl (Ambiguous "a" matching)
        /\ forall m, m ∈ matching <-> In m forms /\ ci_prefix "a" (form_name m))
  /\ (exists valid : gset HermeticTechnique,
        HermeticTechnique_call "x" = inl (Invalid "x" valid)
        /\ forall m, m ∈ valid <-> In m techniques).
Proof.
  destruct StrFlag_prefix_lookup as [Ht Hf].
  split; [|split].
  - destruct (Ht "Cr") as (Huniq & _ & _). apply Huniq.
    + left. reflexivity.
    + exists "eo". reflexivity.
    + intros m' _ Hp. apply ci_prefix_test in Hp.
      destruct m'; [reflexivity|discriminate Hp..].
  - destruct (Hf "a") as (_ & Hamb & _). apply (Hamb ANIMAL AQUAM).
    + left. reflexivity.
    + right. left. reflexivity.
    + discriminate.
    + exists "nimal". reflexivity.
    + exists "quam". reflexivity.
  - destruct (Ht "x") as (_ & _ & Hinv). apply Hinv.
    intros m _ Hp. apply ci_prefix_test in Hp. destruct m; discriminate Hp.
Defined.

(** C10.  A flag class with two or more variants, built from the empty
    string, raises the ambiguous-value error with every variant in it: the
    empty string is a prefix of every name.  It returns no variant and does
    not raise the invalid-value error. *)
Theorem empty_string_is_ambiguous {M : Type} `{Countable M}
    (members : list M) (name : M -> string) :
  NoDup members -> (2 <= length members)%nat ->
  call members name "" = inl (Ambiguous "" (list_to_set members))
  /\ (forall m, call members name "" <> inr m)
  /\ (forall value valid, call members name "" <> inl (Invalid value valid)).
Proof.
  intros Hnd Hlen.
  assert (call members name "" = inl (Ambiguous "" (list_to_set members))) as Hcall.
  { unfold call, _missing_. cbn [Py.lower].
    assert (matches members name "" = list_to_set members) as ->.
    { apply set_eq. intros m. unfold matches.
      rewrite !elem_of_list_to_set, list_elem_of_filter.
      rewrite StringFacts.startswith_empty. tauto. }
    rewrite size_list_to_set by exact Hnd.
    destruct (length members) as [|[|n]]; [lia..|reflexivity]. }
  rewrite Hcall. repeat split; discriminate.
Qed.

(** C10 at [HermeticTechnique] (five variants) and [HermeticForm] (ten). *)
Lemma empty_string_is_ambiguous_witness :
  HermeticTechnique_call "" = inl (Ambiguous "" (list_to_set techniques))
  /\ HermeticForm_call "" = inl (Ambiguous "" (list_to_set forms)).
Proof.
  split.
  - apply (empty_string_is_ambiguous techniques technique_name).
    + refine (bool_decide_unpack _ _). vm_compute. exact I.
    + cbn. lia.
  - apply (empty_string_is_ambiguous forms form_name).
    + refine (bool_decide_unpack _ _). vm_compute. exact I.
    + cbn. lia.
Defined.

End StrFlagClaims.

(** ** Paths and the digest file *)

Module PathFacts.
Import HashIO.

Lemma substring_length (s : string) (n m : nat) :
  String.length (String.substring n m s) = Nat.min m (String.length s - n).
Proof.
  revert n m. induction s as [|c s IH]; intros n m.
  - destruct n, m; reflexivity.
  - destruct n as [|n]; [destruct m as [|m]|]; simpl; [reflexivity| |].
    + rewrite IH. rewrite Nat.sub_0_r. reflexivity.
    + apply IH.
Qed.

Lemma suffix_length (p : Path) : (String.length (suffix p) <= String.length (name p))%nat.
Proof.
  unfold suffix. destruct (_ && _); [|cbn; lia].
  unfold Py.slice_from. rewrite substring_length. lia.
Qed.

Lemma with_suffix_name (p hp : Path) (sfx : string) :
  with_suffix p sfx = inr hp ->
  parent hp = parent p
  /\ name hp =
       (if String.eqb (suffix p) "" then name p
        else Py.slice_to (name p) (Z.of_nat (String.length (name p))
                                   - Z.of_nat (String.length (suffix p)))) +:+ sfx.
Proof.
  unfold with_suffix. intros Hw.
  destruct (Py.char_in "/" sfx); [discriminate|].
  destruct (_ || _); [discriminate|].
  destruct (String.eqb (name p) ""); [discriminate|].
  injection Hw as <-. cbn. split; [reflexivity|].
  destruct (String.eqb (suffix p) ""); reflexivity.
Qed.

Lemma hash_suffix_length (p : Path) (h : string) :
  (String.length (suffix p) < String.length (hash_suffix_of p h))%nat.
Proof.
  unfold hash_suffix_of. destruct (String.eqb (suffix p) "") eqn:He; cbn [negb].
  - apply String.eqb_eq in He. rewrite He, StringFacts.length_app. cbn. lia.
  - rewrite !StringFacts.length_app. cbn [String.length]. lia.
Qed.

Lemma hash_path_longer (p hp : Path) (h : string) :
  hash_path_of p h = inr hp ->
  (String.length (name p) < String.length (name hp))%nat.
Proof.
  intros Hw. apply with_suffix_name in Hw as [_ ->].
  rewrite StringFacts.length_app.
  pose proof (hash_suffix_length p h) as Hlen.
  pose proof (suffix_length p) as Hsuf.
  destruct (String.eqb (suffix p) ""); [lia|].
  unfold Py.slice_to. rewrite substring_length. lia.
Qed.

Lemma hash_path_neq (p hp : Path) (h : string) :
  hash_path_of p h = inr hp -> hp <> p.
Proof.
  intros Hw ->. apply hash_path_longer in Hw. lia.
Qed.

End PathFacts.

(** ** Running the file operations *)

Module HashIOFacts.
Import HashIO HashOpenPhases.

Ltac run := cbv [bind ret raise get put emit set_fs] in *.

Lemma fresh_fd_free (w : World) : open_files w !! fresh (dom (open_files w)) = None.
Proof. apply not_elem_of_dom, is_fresh. Qed.

Lemma is_file_true (p : Path) (c : bytes) (w : World) :
  fs w !! p = Some c -> is_file p w = true.
Proof. intros Hp. unfold is_file. apply bool_decide_eq_true. eauto. Qed.

Lemma is_file_false (p : Path) (w : World) :
  fs w !! p = None -> is_file p w = false.
Proof.
  intros Hp. unfold is_file. apply bool_decide_eq_false. rewrite Hp.
  intros [? ?]. discriminate.
Qed.

(** A call of [open], case by case. *)
Lemma builtins_open_eq (site : Site) (p : Path) (mode : string) (w : World) :
  builtins_open site p mode w =
    let w0 := mkWorld (fs w) (dirs w) (open_files w) (log w ++ [EvOpen site p mode]) in
    match parse_mode mode with
    | None => (inl (ValueError_invalid_mode mode), w0)
    | Some m =>
        if reading m && negb (is_file p w) then (inl (FileNotFoundError p), w0)
        else if creating m && is_file p w then (inl (FileExistsError p), w0)
        else if negb (is_file p w) && negb (is_dir (parent p) w)
        then (inl (FileNotFoundError p), w0)
        else
          let content := if writing m then [] else default [] (fs w !! p) in
          let fd := fresh (dom (open_files w)) in
          (inr (mkFile fd),
           mkWorld (<[p := content]> (fs w)) (dirs w)
             (<[fd := mkOpenFile p (reading m || updating m)
                        (writing m || appending m || creating m || updating m)
                        (appending m)
                        (if appending m then length content else O) []]> (open_files w))
             (log w ++ [EvOpen site p mode]))
    end.
Proof.
  unfold builtins_open, bind, emit, get, put, ret, raise.
  destruct (parse_mode mode) as [m|]; [|reflexivity].
  change (is_file p (mkWorld (fs w) (dirs w) (open_files w) (log w ++ [EvOpen site p mode])))
    with (is_file p w).
  change (is_dir (parent p)
            (mkWorld (fs w) (dirs w) (open_files w) (log w ++ [EvOpen site p mode])))
    with (is_dir (parent p) w).
  destruct (reading m && negb (is_file p w)); [reflexivity|].
  destruct (creating m && is_file p w); [reflexivity|].
  destruct (negb (is_file p w) && negb (is_dir (parent p) w)); reflexivity.
Qed.

(** Opening an existing file in a mode that does not ask to create it. *)
Lemma builtins_open_existing (site : Site) (p : Path) (mode : string) (m : Mode)
    (c : bytes) (w : World) :
  parse_mode mode = Some m -> creating m = false -> fs w !! p = Some c ->
  let content := if writing m then [] else c in
  let fd := fresh (dom (open_files w)) in
  builtins_open site p mode w =
    (inr (mkFile fd),
     mkWorld (<[p := content]> (fs w)) (dirs w)
             (<[fd := mkOpenFile p (reading m || updating m)
                          (writing m || appending m || creating m || updating m)
                          (appending m)
                          (if appending m then length content else O) []]> (open_files w))
             (log w ++ [EvOpen site p mode])).
Proof.
  intros Hm Hc Hp. rewrite builtins_open_eq, Hm. cbn zeta.
  rewrite (is_file_true p c w Hp), Hc, Hp. cbn [negb andb default].
  rewrite andb_false_r. reflexivity.
Qed.


(** Closing an open file object: its buffer reaches the file. *)
Lemma file_exit_open (f : File) (o : OpenFile) (content : bytes) (w : World) :
  open_files w !! fileno f = Some o -> fs w !! of_path o = Some content ->
  file_exit f w =
    (inr tt, mkWorld (<[of_path o := flushed o content]> (fs w)) (dirs w)
                     (delete (fileno f) (open_files w)) (log w)).
Proof.
  intros Ho Hp. unfold file_exit, bind at 1, get. rewrite Ho.
  unfold write_out. destruct (of_buffer o) as [|b buf] eqn:Hb.
  - cbv [bind ret get put]. f_equal. f_equal.
    unfold flushed. rewrite Hb. cbn [app length]. rewrite Nat.add_0_r, take_drop.
    symmetry. apply insert_id, Hp.
  - cbv [bind ret get put set_fs]. cbn [fs dirs open_files log]. rewrite Hp. reflexivity.
Qed.

(** Writing to an open, writable file object: the data goes to its buffer. *)
Lemma file_write_open (f : File) (o : OpenFile) (data : bytes) (w : World) :
  open_files w !! fileno f = Some o -> of_writable o = true ->
  file_write f data w =
    (inr tt, mkWorld (fs w) (dirs w)
               (<[fileno f := mkOpenFile (of_path o) (of_readable o) (of_writable o)
                                (of_append o) (of_pos o) (of_buffer o ++ data)]>
                  (open_files w))
               (log w)).
Proof.
  intros Ho Hw. unfold file_write, bind, get, put. rewrite Ho, Hw. reflexivity.
Qed.

Lemma read_bytes_existing (p : Path) (c : bytes) (w : World) :
  fs w !! p = Some c ->
  read_bytes p w =
    (inr c, mkWorld (fs w) (dirs w) (open_files w) (log w ++ [EvOpen InReadBytes p "rb"])).
Proof.
  intros Hp. unfold read_bytes, bind at 1.
  rewrite (builtins_open_existing InReadBytes p "rb" _ c w eq_refl eq_refl Hp).
  unfold file_read, file_exit, write_out. run. cbn.
  rewrite lookup_insert_eq. cbn. rewrite lookup_insert_eq. cbn.
  rewrite lookup_insert_eq. cbn.
  rewrite insert_insert_eq, delete_insert_eq, (delete_id _ _ (fresh_fd_free w)).
  rewrite (insert_id _ _ _ Hp). reflexivity.
Qed.

Section Hashlib.
Context (hashlib : string -> option (bytes -> bytes)).

Lemma path_digest_existing (p : Path) (digest : string) (h : bytes -> bytes)
    (c : bytes) (w : World) :
  hashlib digest = Some h -> fs w !! p = Some c ->
  path_digest hashlib p digest w =
    (inr (h c), mkWorld (fs w) (dirs w) (open_files w)
                        (log w ++ [EvOpen InPathDigest p "rb"])).
Proof.
  intros Hh Hp. unfold path_digest, bind at 1.
  rewrite (builtins_open_existing InPathDigest p "rb" _ c w eq_refl eq_refl Hp).
  rewrite Hh. unfold file_read, file_exit, write_out. run. cbn.
  rewrite lookup_insert_eq. cbn. rewrite lookup_insert_eq. cbn.
  rewrite lookup_insert_eq. cbn.
  rewrite insert_insert_eq, delete_insert_eq, (delete_id _ _ (fresh_fd_free w)).
  rewrite (insert_id _ _ _ Hp). reflexivity.
Qed.



(** Whatever the mode, a call of [open] is logged and touches no other file. *)
Lemma builtins_open_frame (site : Site) (p : Path) (mode : string) (w : World) :
  log (snd (builtins_open site p mode w)) = log w ++ [EvOpen site p mode]
  /\ forall q, q <> p -> fs (snd (builtins_open site p mode w)) !! q = fs w !! q.
Proof.
  rewrite builtins_open_eq. cbn zeta.
  destruct (parse_mode mode) as [m|]; [|split; reflexivity].
  destruct (reading m && _); [split; reflexivity|].
  destruct (creating m && _); [split; reflexivity|].
  destruct (negb _ && _); [split; reflexivity|].
  split; [reflexivity|]. intros q Hq. apply lookup_insert_ne. congruence.
Qed.

Lemma unlink_existing (p : Path) (c : bytes) (w : World) :
  fs w !! p = Some c ->
  unlink p w = (inr tt, mkWorld (delete p (fs w)) (dirs w) (open_files w) (log w ++ [EvUnlink p])).
Proof.
  intros Hp. unfold unlink. run. cbn. unfold is_file. cbn.
  rewrite bool_decide_eq_true_2 by eauto. reflexivity.
Qed.

Lemma validate_path_existing (p : Path) (digest : string) (h : bytes -> bytes)
    (expected c : bytes) (on_error : OnError) (w : World) :
  hashlib digest = Some h -> fs w !! p = Some c ->
  validate_path hashlib p digest expected on_error w =
    let w1 := mkWorld (fs w) (dirs w) (open_files w) (log w ++ [EvOpen InPathDigest p "rb"]) in
    if decide (expected = h c) then (inr tt, w1)
    else match on_error with
         | Raise => (inl (OSError_modified p expected (h c)), w1)
         | Warn => (inr tt, mkWorld (fs w) (dirs w) (open_files w)
                              (log w ++ [EvOpen InPathDigest p "rb"; EvWarn p expected (h c)]))
         | Ignore => (inl AssertionError, w1)
         end.
Proof.
  intros Hh Hp. unfold validate_path, bind at 1.
  rewrite (path_digest_existing p digest h c w Hh Hp). cbn zeta.
  destruct (decide (expected = h c)) as [He|He].
  - rewrite bool_decide_eq_true_2 by assumption. reflexivity.
  - rewrite bool_decide_eq_false_2 by assumption. cbn [negb].
    destruct on_error; try reflexivity.
    unfold emit. cbn. rewrite <- app_assoc. reflexivity.
Qed.

Lemma hash_open_phases (how : bool) (on_error : OnError) (hash_name : string)
    (h : bytes -> bytes) (file hp : Path) (mode : string) (w : World) :
  hashlib hash_name = Some h -> hash_path_of file hash_name = inr hp ->
  hash_open hashlib how on_error hash_name file mode w =
    (validation hashlib on_error hash_name file hp ;;; opening how hash_name file hp mode) w.
Proof.
  intros Hh Hhp. unfold hash_open, hashlib_new. rewrite Hh, Hhp. reflexivity.
Qed.

Lemma validation_skipped (on_error : OnError) (hash_name : string) (file hp : Path)
    (w : World) :
  on_error = Ignore \/ fs w !! file = None \/ fs w !! hp = None ->
  validation hashlib on_error hash_name file hp w = (inr tt, w).
Proof.
  intros Hskip. unfold validation. run.
  destruct Hskip as [-> | [Hf | Hhp]].
  - reflexivity.
  - rewrite (is_file_false _ _ Hf), andb_false_r. reflexivity.
  - rewrite (is_file_false _ _ Hhp), andb_false_r. reflexivity.
Qed.

Lemma validation_checked (on_error : OnError) (hash_name : string) (h : bytes -> bytes)
    (file hp : Path) (c stored : bytes) (w : World) :
  hashlib hash_name = Some h -> on_error <> Ignore ->
  fs w !! file = Some c -> fs w !! hp = Some stored ->
  validation hashlib on_error hash_name file hp w =
    let evs := [EvOpen InReadBytes hp "rb"; EvOpen InPathDigest file "rb"] in
    let w1 := mkWorld (fs w) (dirs w) (open_files w) (log w ++ evs) in
    if decide (stored = h c) then (inr tt, w1)
    else match on_error with
         | Raise => (inl (OSError_modified file stored (h c)), w1)
         | Warn => (inr tt, mkWorld (fs w) (dirs w) (open_files w)
                              (log w ++ evs ++ [EvWarn file stored (h c)]))
         | Ignore => (inl AssertionError, w1)
         end.
Proof.
  intros Hh Hne Hf Hhp. unfold validation, bind at 1, get.
  rewrite (is_file_true _ _ _ Hf), (is_file_true _ _ _ Hhp).
  rewrite bool_decide_eq_false_2 by assumption. cbn [negb andb].
  unfold bind. rewrite (read_bytes_existing hp stored w Hhp).
  rewrite (validate_path_existing file hash_name h stored c on_error _ Hh) by exact Hf.
  cbn. rewrite <- !app_assoc. cbn.
  destruct (decide (stored = h c)); [reflexivity|].
  destruct on_error; reflexivity.
Qed.

Lemma opening_spec (how : bool) (hash_name : string) (file hp : Path) (mode : string)
    (w : World) :
  opening how hash_name file hp mode w =
    match builtins_open InHashOpen file mode (before_open hp mode w) with
    | (inl e, w') => (inl e, w')
    | (inr f, w') =>
        (inr (if write_or_append mode && how
              then mkWrapper f (Some file) (Some hp) hash_name
              else mkWrapper f None None "sha256"), w')
    end.
Proof.
  unfold opening, before_open, bind at 1, get, bind at 1.
  destruct (write_or_append mode && is_file hp w) eqn:Hc.
  - apply andb_true_iff in Hc as [_ Hc]. apply bool_decide_eq_true in Hc as [c Hc].
    rewrite (unlink_existing hp c w Hc). unfold bind.
    destruct (builtins_open _ _ _ _) as [[e|f] w'];
      [reflexivity|]. destruct (write_or_append mode && how); reflexivity.
  - unfold ret at 1, bind.
    destruct (builtins_open _ _ _ _) as [[e|f] w'];
      [reflexivity|]. destruct (write_or_append mode && how); reflexivity.
Qed.

Lemma opening_world (how : bool) (hash_name : string) (file hp : Path) (mode : string)
    (w : World) :
  snd (opening how hash_name file hp mode w) =
    snd (builtins_open InHashOpen file mode (before_open hp mode w)).
Proof.
  rewrite opening_spec. destruct (builtins_open _ _ _ _) as [[e|f] w']; reflexivity.
Qed.

Lemma before_open_dirs (hp : Path) (mode : string) (w : World) :
  dirs (before_open hp mode w) = dirs w.
Proof. unfold before_open. destruct (_ && _); reflexivity. Qed.

Lemma before_open_files (hp : Path) (mode : string) (w : World) :
  open_files (before_open hp mode w) = open_files w.
Proof. unfold before_open. destruct (_ && _); reflexivity. Qed.

(** What is left of the [with] block once the file is open and writable:
    the data is in the buffer of the file object when [__exit__] runs. *)
Lemma with_write_after_open (how : bool) (on_error : OnError) (hash_name : string)
    (file : Path) (mode : string) (data : bytes) (wrapper : _HashFileWrapper)
    (o : OpenFile) (w w2 : World) :
  hash_open hashlib how on_error hash_name file mode w = (inr wrapper, w2) ->
  open_files w2 !! fileno (HashIO.file wrapper) = Some o -> of_writable o = true ->
  with_write hashlib how on_error hash_name file mode data w =
    __exit__ hashlib wrapper
      (mkWorld (fs w2) (dirs w2)
               (<[fileno (HashIO.file wrapper) :=
                    mkOpenFile (of_path o) (of_readable o) (of_writable o) (of_append o)
                               (of_pos o) (of_buffer o ++ data)]> (open_files w2))
               (log w2)).
Proof.
  intros Hopen Ho Hw. unfold with_write, bind at 1. rewrite Hopen.
  unfold __enter__, bind, ret. rewrite (file_write_open _ o data w2 Ho Hw). reflexivity.
Qed.

(** [__exit__] of a wrapper that does not hash: the file object is closed. *)
Lemma exit_plain (f : File) (o : OpenFile) (content : bytes) (w : World) :
  open_files w !! fileno f = Some o -> fs w !! of_path o = Some content ->
  __exit__ hashlib (mkWrapper f None None "sha256") w =
    (inr tt, mkWorld (<[of_path o := flushed o content]> (fs w)) (dirs w)
                     (delete (fileno f) (open_files w)) (log w)).
Proof.
  intros Ho Hp. unfold __exit__. cbn [HashIO.file path hash_path]. unfold bind.
  rewrite (file_exit_open f o content w Ho Hp). reflexivity.
Qed.


End Hashlib.
End HashIOFacts.

(** ** The claims about hash-validated files *)

Module HashIOClaims.
Import HashIO HashOpenPhases PathFacts HashIOFacts.

(** The model of SHA-256 on the vectors of [tests/io/test_hashio.py]. *)
Lemma sha256_test_path_digest : Sha256.sha256 b123456 = sha256_of_123456.
Proof. vm_compute. reflexivity. Qed.

Lemma sha256_test_open :
  Sha256.sha256 (list_byte_of_string "changed content") =
    [Byte.xb9; Byte.x2d; Byte.x13; Byte.xbb; Byte.xe0; Byte.x2d; Byte.xb7; Byte.xca;
     Byte.x76; Byte.x86; Byte.xa8; Byte.xe7; Byte.xb8; Byte.x54; Byte.xde; Byte.x49;
     Byte.xc7; Byte.x45; Byte.x59; Byte.x48; Byte.xc0; Byte.x5c; Byte.xf9; Byte.x1a;
     Byte.x47; Byte.x04; Byte.x42; Byte.x78; Byte.x39; Byte.x5e; Byte.x21; Byte.x2e].
Proof. vm_compute. reflexivity. Qed.

Lemma hash_path_name_no_suffix (p hp : Path) (h : string) :
  suffix p = "" -> hash_path_of p h = inr hp ->
  name hp = name p +:+ "." +:+ h.
Proof.
  intros Hs Hw. apply with_suffix_name in Hw as [_ ->].
  unfold hash_suffix_of. rewrite Hs. reflexivity.
Qed.

Lemma hash_path_name_with_suffix (p hp : Path) (h : string) :
  suffix p <> "" -> hash_path_of p h = inr hp ->
  name hp =
    Py.slice_to (name p) (Z.of_nat (String.length (name p))
                          - Z.of_nat (String.length (suffix p)))
    +:+ "." +:+ suffix p +:+ "." +:+ h.
Proof.
  intros Hs Hw. apply with_suffix_name in Hw as [_ ->].
  unfold hash_suffix_of. apply String.eqb_neq in Hs. rewrite Hs. reflexivity.
Qed.

(** C3.  The digest file of a path with a suffix is meant to be the path with
    [.<algorithm>] added: [data.csv.sha256] for [data.csv].  The code formats
    the new suffix as a dot, then [path.suffix], which already starts with a
    dot, so it gives [data..csv.sha256].  A path without suffix does get
    [<name>.<algorithm>]: [data.sha256] for [data]. *)
Theorem digest_path_of_data_csv :
  suffix (mkPath [] "data.csv") = ".csv"
  /\ hash_path_of (mkPath [] "data.csv") "sha256" = inr (mkPath [] "data..csv.sha256")
  /\ hash_path_of (mkPath [] "data.csv") "sha256" <> inr (mkPath [] "data.csv.sha256")
  /\ hash_path_of (mkPath [] "data") "sha256" = inr (mkPath [] "data.sha256").
Proof. repeat split. discriminate. Qed.

Section Hashlib.
Context (hashlib : string -> option (bytes -> bytes)).

Lemma hash_open_mismatch_raise (how : bool) (hash_name : string) (h : bytes -> bytes)
    (file hp : Path) (mode : string) (c stored : bytes) (w : World) :
  hashlib hash_name = Some h -> hash_path_of file hash_name = inr hp ->
  fs w !! file = Some c -> fs w !! hp = Some stored -> stored <> h c ->
  hash_open hashlib how Raise hash_name file mode w =
    (inl (OSError_modified file stored (h c)),
     mkWorld (fs w) (dirs w) (open_files w)
             (log w ++ [EvOpen InReadBytes hp "rb"; EvOpen InPathDigest file "rb"])).
Proof.
  intros Hh Hhp Hf Hd Hne.
  rewrite (hash_open_phases hashlib how Raise hash_name h file hp mode w Hh Hhp).
  unfold bind.
  rewrite (validation_checked hashlib Raise hash_name h file hp c stored w Hh) by
    (assumption || discriminate).
  cbn zeta. destruct (decide (stored = h c)); [contradiction|reflexivity].
Qed.

Lemma hash_open_mismatch_warn (how : bool) (hash_name : string) (h : bytes -> bytes)
    (file hp : Path) (mode : string) (m : Mode) (c stored : bytes) (w : World) :
  hashlib hash_name = Some h -> hash_path_of file hash_name = inr hp ->
  fs w !! file = Some c -> fs w !! hp = Some stored -> stored <> h c ->
  parse_mode mode = Some m -> creating m = false ->
  exists wrapper o w',
    hash_open hashlib how Warn hash_name file mode w = (inr wrapper, w')
    /\ open_files w' !! fileno (HashIO.file wrapper) = Some o
    /\ of_path o = file
    /\ of_readable o = (reading m || updating m)
    /\ of_writable o = (writing m || appending m || creating m || updating m)
    /\ log w' = log w ++ [EvOpen InReadBytes hp "rb"; EvOpen InPathDigest file "rb"]
                ++ [EvWarn file stored (h c)]
                ++ (if write_or_append mode then [EvUnlink hp] else [])
                ++ [EvOpen InHashOpen file mode].
Proof.
  intros Hh Hhp Hf Hd Hne Hm Hcr.
  rewrite (hash_open_phases hashlib how Warn hash_name h file hp mode w Hh Hhp).
  unfold bind.
  rewrite (validation_checked hashlib Warn hash_name h file hp c stored w Hh) by
    (assumption || discriminate).
  cbn zeta. destruct (decide (stored = h c)); [contradiction|].
  rewrite opening_spec.
  set (w1 := mkWorld (fs w) (dirs w) (open_files w) _).
  assert (fs (before_open hp mode w1) !! file = Some c) as Hf'.
  { unfold before_open. destruct (_ && _); cbn; [|exact Hf].
    rewrite lookup_delete_ne; [exact Hf|]. apply (hash_path_neq _ _ _ Hhp). }
  rewrite (builtins_open_existing InHashOpen file mode m c _ Hm Hcr Hf').
  eexists _, _, _. split; [reflexivity|].
  split; [destruct (write_or_append mode && how); cbn; apply lookup_insert_eq|].
  split; [reflexivity|]. split; [reflexivity|]. split; [reflexivity|].
  unfold before_open. rewrite (is_file_true hp stored w1 Hd), andb_true_r.
  destruct (write_or_append mode); cbn [log w1]; rewrite <- !app_assoc; reflexivity.
Qed.

(** C2.  The tracked file and its digest file exist and the stored digest is
    not the digest of the file's contents.  Under [Raise], [hash_open] raises
    [OSError]: no wrapper is returned, the file system and the open files are
    as before, and the only calls of [open] are the two read-only ones of the
    validation ([read_bytes] on the digest file, [path_digest] on the tracked
    file); the call that would give the handle is not made.  Under [Warn],
    for every mode that [open] accepts on an existing file, [hash_open] returns
    a wrapper whose file object is open on the tracked file with the rights of
    the mode, and the warning is logged before that file is opened. *)
Theorem mismatch_raises_or_warns (how : bool) (hash_name : string) (h : bytes -> bytes)
    (file hp : Path) (mode : string) (c stored : bytes) (w : World) :
  hashlib hash_name = Some h -> hash_path_of file hash_name = inr hp ->
  fs w !! file = Some c -> fs w !! hp = Some stored -> stored <> h c ->
  let checked := [EvOpen InReadBytes hp "rb"; EvOpen InPathDigest file "rb"] in
  hash_open hashlib how Raise hash_name file mode w =
    (inl (OSError_modified file stored (h c)),
     mkWorld (fs w) (dirs w) (open_files w) (log w ++ checked))
  /\ (forall m, parse_mode mode = Some m -> creating m = false ->
      exists wrapper o w',
        hash_open hashlib how Warn hash_name file mode w = (inr wrapper, w')
        /\ open_files w' !! fileno (HashIO.file wrapper) = Some o
        /\ of_path o = file
        /\ of_readable o = (reading m || updating m)
        /\ of_writable o = (writing m || appending m || creating m || updating m)
        /\ log w' = log w ++ checked ++ [EvWarn file stored (h c)]
                    ++ (if write_or_append mode then [EvUnlink hp] else [])
                    ++ [EvOpen InHashOpen file mode]).
Proof.
  intros Hh Hhp Hf Hd Hne checked. split.
  - apply hash_open_mismatch_raise; assumption.
  - intros m Hm Hcr. apply hash_open_mismatch_warn; assumption.
Qed.

Lemma validation_passes (on_error : OnError) (hash_name : string) (h : bytes -> bytes)
    (file hp : Path) (w : World) :
  hashlib hash_name = Some h ->
  ~ (on_error = Raise /\ mismatch h file hp w) ->
  exists pre,
    validation hashlib on_error hash_name file hp w =
      (inr tt, mkWorld (fs w) (dirs w) (open_files w) (log w ++ pre))
    /\ Forall validation_event pre.
Proof.
  intros Hh Hok.
  destruct (decide (on_error = Ignore)) as [Hi|Hi];
    [|destruct (fs w !! file) as [c|] eqn:Hf;
      [destruct (fs w !! hp) as [stored|] eqn:Hd|]].
  2: { rewrite (validation_checked hashlib on_error hash_name h file hp c stored w)
         by assumption.
       cbn zeta. destruct (decide (stored = h c)) as [He|He].
       - eexists. split; [reflexivity|]. repeat constructor.
       - destruct on_error.
         + exfalso. apply Hok. split; [reflexivity|]. exists c, stored. auto.
         + eexists. split; [reflexivity|]. repeat constructor.
         + contradiction. }
  all: exists []; split; [|constructor];
    rewrite validation_skipped by auto;
    destruct w; cbn; rewrite app_nil_r; reflexivity.
Qed.

Lemma hash_open_continues (how : bool) (on_error : OnError) (hash_name : string)
    (h : bytes -> bytes) (file hp : Path) (mode : string) (w w1 : World) :
  hashlib hash_name = Some h -> hash_path_of file hash_name = inr hp ->
  validation hashlib on_error hash_name file hp w = (inr tt, w1) ->
  hash_open hashlib how on_error hash_name file mode w =
    opening how hash_name file hp mode w1.
Proof.
  intros Hh Hhp Hv.
  rewrite (hash_open_phases hashlib how on_error hash_name h file hp mode w Hh Hhp).
  unfold bind. rewrite Hv. reflexivity.
Qed.

Lemma opening_deletes (how : bool) (hash_name : string) (file hp : Path)
    (mode : string) (stored : bytes) (w : World) :
  hp <> file -> write_or_append mode = true -> fs w !! hp = Some stored ->
  fs (snd (opening how hash_name file hp mode w)) !! hp = None
  /\ log (snd (opening how hash_name file hp mode w)) =
       log w ++ [EvUnlink hp; EvOpen InHashOpen file mode].
Proof.
  intros Hne Hwa Hd. rewrite opening_world.
  destruct (builtins_open_frame InHashOpen file mode (before_open hp mode w)) as [Hlog Hfs].
  rewrite Hlog, (Hfs hp Hne). unfold before_open.
  rewrite Hwa, (is_file_true hp stored w Hd). cbn.
  rewrite lookup_delete_eq, <- app_assoc. split; reflexivity.
Qed.

(** C5, as amended.  The mode writes or appends and the digest file exists.
    Unless the validation aborts the call (policy [Raise] and a digest that
    disagrees), the digest file is deleted and the deletion is the last event
    before the tracked file is opened, whether the validation was skipped,
    passed, or warned.  When the validation aborts the call, [hash_open]
    raises and the file system, with the digest file, stays as it was. *)
Theorem digest_deleted_unless_aborted (how : bool) (on_error : OnError)
    (hash_name : string) (h : bytes -> bytes) (file hp : Path) (mode : string)
    (stored : bytes) (w : World) :
  hashlib hash_name = Some h -> hash_path_of file hash_name = inr hp ->
  write_or_append mode = true -> fs w !! hp = Some stored ->
  let r := hash_open hashlib how on_error hash_name file mode w in
  (~ (on_error = Raise /\ mismatch h file hp w) ->
     fs (snd r) !! hp = None
     /\ exists pre, Forall validation_event pre
          /\ log (snd r) = log w ++ pre ++ [EvUnlink hp; EvOpen InHashOpen file mode])
  /\ (on_error = Raise /\ mismatch h file hp w ->
      (exists e, fst r = inl e)
      /\ fs (snd r) = fs w
      /\ exists pre, Forall validation_event pre /\ log (snd r) = log w ++ pre).
Proof.
  intros Hh Hhp Hwa Hd r. subst r. split.
  - intros Hok.
    destruct (validation_passes on_error hash_name h file hp w Hh Hok) as (pre & Hv & Hpre).
    rewrite (hash_open_continues how on_error hash_name h file hp mode w _ Hh Hhp Hv).
    destruct (opening_deletes how hash_name file hp mode stored
                (mkWorld (fs w) (dirs w) (open_files w) (log w ++ pre))) as [Hgone Hlog];
      [apply (hash_path_neq _ _ _ Hhp)|exact Hwa|exact Hd|].
    split; [exact Hgone|]. exists pre. split; [exact Hpre|].
    rewrite Hlog. cbn. rewrite <- app_assoc. reflexivity.
  - intros [-> (c & stored' & Hf & Hd' & Hne)].
    rewrite Hd in Hd'. injection Hd' as <-.
    rewrite (hash_open_mismatch_raise how hash_name h file hp mode c stored w
               Hh Hhp Hf Hd Hne). cbn. split; [eauto|]. split; [reflexivity|].
    eexists. split; [|reflexivity]. repeat constructor.
Qed.





End Hashlib.

(** C5, the counterexample.  [testfile] holds [b"123456"], [testfile.sha256]
    holds [b"12345"]; [open(testfile, "w")] with the default policy raises,
    and the digest file is still there, never unlinked. *)
Lemma digest_survives_aborted_write :
  write_or_append "w" = true
  /\ hash_path_of testfile "sha256" = inr testfile_sha256
  /\ is_file testfile_sha256 tampered_world = true
  /\ exists e w',
       HashIO.open hashlib_sha256 testfile "w" tampered_world = (inl e, w')
       /\ fs w' !! testfile_sha256 = Some b12345
       /\ ~ In (EvUnlink testfile_sha256) (log w').
Proof.
  split; [reflexivity|]. split; [reflexivity|]. split; [reflexivity|].
  eexists _, _. split.
  { apply (hash_open_mismatch_raise hashlib_sha256 true "sha256" Sha256.sha256
             testfile testfile_sha256 "w" b123456 b12345 tampered_world);
      try reflexivity.
    vm_compute. discriminate. } split; [reflexivity|].
  cbn. intros [H|[H|[]]]; discriminate H.
Qed.

(** C2 on the files of [test_open]: [testfile] holds [b"123456"] and
    [testfile.sha256] holds [b"12345"]. *)
Lemma mismatch_raises_or_warns_witness :
  HashIO.open hashlib_sha256 testfile "r" tampered_world =
    (inl (OSError_modified testfile b12345 (Sha256.sha256 b123456)),
     mkWorld (fs tampered_world) (dirs tampered_world) (open_files tampered_world)
       (log tampered_world
        ++ [EvOpen InReadBytes testfile_sha256 "rb"; EvOpen InPathDigest testfile "rb"]))
  /\ exists wrapper o w',
       hash_open hashlib_sha256 true Warn "sha256" testfile "r" tampered_world
         = (inr wrapper, w')
       /\ open_files w' !! fileno (HashIO.file wrapper) = Some o
       /\ of_path o = testfile.
Proof.
  destruct (mismatch_raises_or_warns hashlib_sha256 true "sha256" Sha256.sha256
              testfile testfile_sha256 "r" b123456 b12345 tampered_world)
    as [Hraise Hwarn]; [reflexivity..|vm_compute; discriminate|].
  split; [exact Hraise|].
  destruct (Hwarn (mkMode false true false false false) eq_refl eq_refl)
    as (wrapper & o & w' & Hopen & Hfd & Hpath & _).
  exists wrapper, o, w'. auto.
Defined.

(** The amended C5 on the same files, in mode [w]: under [Warn] the digest
    file is deleted; under [Raise] it stays. *)
Lemma digest_deleted_unless_aborted_witness :
  fs (snd (hash_open hashlib_sha256 true Warn "sha256" testfile "w" tampered_world))
    !! testfile_sha256 = None
  /\ fs (snd (hash_open hashlib_sha256 true Raise "sha256" testfile "w" tampered_world))
     = fs tampered_world.
Proof.
  split.
  - destruct (digest_deleted_unless_aborted hashlib_sha256 true Warn "sha256"
                Sha256.sha256 testfile testfile_sha256 "w" b12345 tampered_world)
      as [Hdel _]; [reflexivity..|].
    apply Hdel. intros [Hpol _]. discriminate Hpol.
  - destruct (digest_deleted_unless_aborted hashlib_sha256 true Raise "sha256"
                Sha256.sha256 testfile testfile_sha256 "w" b12345 tampered_world)
      as [_ Hkeep]; [reflexivity..|].
    apply Hkeep. split; [reflexivity|].
    exists b123456, b12345. split; [reflexivity|]. split; [reflexivity|].
    vm_compute. discriminate.
Defined.


End HashIOClaims.

(** * More properties of the code *)

(** ** Periods *)

Module TimesExtras.
Import Times Vocabulary TimesSpec IterBetweenSpec.

Lemma lt_irrefl (a : YearSeason) : lt a a = false.
Proof. apply lt_false. unfold lex_le. lia. Qed.

Lemma lt_trans (a b c : YearSeason) : lt a b = true -> lt b c = true -> lt a c = true.
Proof. rewrite !lt_spec. unfold lex_lt. lia. Qed.

Lemma sorted_NoDup (l : list YearSeason) :
  StronglySorted (fun a b => lt a b = true) l -> NoDup l.
Proof.
  induction 1 as [|a l Hs IH Ha]; constructor; [|exact IH].
  intros Hin. apply list_elem_of_In in Hin.
  rewrite List.Forall_forall in Ha. specialize (Ha a Hin).
  rewrite lt_irrefl in Ha. discriminate.
Qed.

Lemma range_length (a b : Z) : length (Py.range a b) = Z.to_nat (b - a).
Proof. unfold Py.range. rewrite length_map, length_seq. reflexivity. Qed.

Lemma whole_years_length (ys : list Z) :
  length (flat_map (fun y => map (mkYearSeason y) members) ys) = (4 * length ys)%nat.
Proof. induction ys as [|y ys IH]; cbn [flat_map]; [reflexivity|]. rewrite length_app, IH. cbn. lia. Qed.

Lemma pass_ge_length (y : Z) (s : Seasons) :
  Z.of_nat (length (map (mkYearSeason y)
                        (filter (fun t => season_ge t s = true) members)))
  = 4 - _enumeration_order s.
Proof. destruct s; reflexivity. Qed.

Lemma pass_le_length (y : Z) (s : Seasons) :
  Z.of_nat (length (map (mkYearSeason y)
                        (filter (fun t => season_le t s = true) members)))
  = _enumeration_order s + 1.
Proof. destruct s; reflexivity. Qed.

(** X1.  With the bounds in different years ([start.year < end.year]),
    [iter_between] yields exactly the periods [p] with [start <= p <= end],
    in strictly ascending order and so without repetition; their number is
    [4 * (end.year - start.year) + (rank end.season - rank start.season) + 1]. *)
Theorem iter_between_distinct_years (start end_ : YearSeason) :
  year start < year end_ ->
  (forall p, In p (iter_between start end_) <-> le start p = true /\ le p end_ = true)
  /\ StronglySorted (fun a b => lt a b = true) (iter_between start end_)
  /\ NoDup (iter_between start end_)
  /\ Z.of_nat (length (iter_between start end_)) =
       4 * (year end_ - year start)
       + (_enumeration_order (season end_) - _enumeration_order (season start)) + 1.
Proof.
  intros Hy.
  pose proof (iter_between_distinct_years_sorted start end_ Hy) as Hs.
  split; [intros p; apply iter_between_distinct_years_In, Hy|].
  split; [exact Hs|]. split; [apply sorted_NoDup, Hs|].
  unfold iter_between.
  replace (lt end_ start) with false
    by (symmetry; apply lt_false; unfold lex_le, key; cbn; lia).
  rewrite !length_app, !Nat2Z.inj_add, pass_ge_length, pass_le_length.
  rewrite whole_years_length, range_length. lia.
Qed.

Lemma iter_between_distinct_years_witness :
  let start := mkYearSeason 2 AUTUMN in
  let end_ := mkYearSeason 4 SUMMER in
  NoDup (iter_between start end_)
  /\ Z.of_nat (length (iter_between start end_)) = 8.
Proof.
  intros start end_.
  destruct (iter_between_distinct_years start end_) as (_ & _ & Hnd & Hlen);
    [cbn; lia|].
  split; [exact Hnd|exact Hlen].
Defined.

Lemma first_pass_head (y : Z) (s : Seasons) :
  exists rest, map (mkYearSeason y) (filter (fun t => season_ge t s = true) members)
               = mkYearSeason y s :: rest.
Proof. destruct s; eexists; reflexivity. Qed.

Lemma last_pass_last (y : Z) (s : Seasons) :
  exists front, map (mkYearSeason y) (filter (fun t => season_le t s = true) members)
                = front ++ [mkYearSeason y s].
Proof.
  destruct s;
    [exists []|exists [mkYearSeason y SPRING]
     |exists [mkYearSeason y SPRING; mkYearSeason y SUMMER]
     |exists [mkYearSeason y SPRING; mkYearSeason y SUMMER; mkYearSeason y AUTUMN]];
    reflexivity.
Qed.

(** X2.  [iter_between] yields nothing when [end < start]; otherwise its
    first element is [start] and its last element is [end], whatever the
    years are. *)
Theorem iter_between_bounds (start end_ : YearSeason) :
  (lt end_ start = true -> iter_between start end_ = [])
  /\ (lt end_ start = false ->
      exists middle, iter_between start end_ = start :: middle ++ [end_]).
Proof.
  split; [apply iter_between_empty|].
  intros Hlt. unfold iter_between. rewrite Hlt.
  destruct (first_pass_head (year start) (season start)) as [rest ->].
  destruct (last_pass_last (year end_) (season end_)) as [front ->].
  destruct start as [y1 s1], end_ as [y2 s2]. cbn [year season].
  eexists. cbn [app]. f_equal. rewrite !app_assoc. reflexivity.
Qed.

Lemma iter_between_bounds_witness :
  iter_between (mkYearSeason 4 SUMMER) (mkYearSeason 2 AUTUMN) = []
  /\ exists middle,
       iter_between (mkYearSeason 2 AUTUMN) (mkYearSeason 4 SUMMER)
       = mkYearSeason 2 AUTUMN :: middle ++ [mkYearSeason 4 SUMMER].
Proof.
  split.
  - apply (iter_between_bounds (mkYearSeason 4 SUMMER) (mkYearSeason 2 AUTUMN)).
    reflexivity.
  - apply (iter_between_bounds (mkYearSeason 2 AUTUMN) (mkYearSeason 4 SUMMER)).
    reflexivity.
Defined.

(** X3.  With both bounds in one year and [start <= end], [iter_between]
    yields the seasons from [start.season] on and then the seasons up to
    [end.season] of that year: four elements more than there are periods
    between the bounds, and never without repetition. *)
Theorem iter_between_same_year_overcount (start end_ : YearSeason) :
  year start = year end_ -> lt end_ start = false ->
  iter_between start end_ =
    map (mkYearSeason (year start))
        (filter (fun s => season_ge s (season start) = true) members)
    ++ map (mkYearSeason (year start))
           (filter (fun s => season_le s (season end_) = true) members)
  /\ Z.of_nat (length (iter_between start end_)) =
       (_enumeration_order (season end_) - _enumeration_order (season start) + 1) + 4
  /\ ~ NoDup (iter_between start end_).
Proof.
  intros Hy Hlt. split; [apply iter_between_same_year; assumption|].
  split; [apply iter_between_same_year_length; assumption|].
  apply iter_between_same_year_dup; assumption.
Qed.

Lemma iter_between_same_year_overcount_witness :
  Z.of_nat (length (iter_between (mkYearSeason 3 SUMMER) (mkYearSeason 3 AUTUMN))) = 6.
Proof.
  destruct (iter_between_same_year_overcount (mkYearSeason 3 SUMMER) (mkYearSeason 3 AUTUMN))
    as (_ & Hlen & _); [reflexivity..|].
  exact Hlen.
Defined.

Lemma range_snoc (a b : Z) : a <= b -> Py.range a (b + 1) = Py.range a b ++ [b].
Proof.
  intros Hab. unfold Py.range.
  replace (Z.to_nat (b + 1 - a)) with (Z.to_nat (b - a) + 1)%nat by lia.
  rewrite seq_app, map_app. cbn. do 2 f_equal. lia.
Qed.

(** X4.  [start_of_year] and [end_of_year] give the spring and the winter of
    a positive year and raise the validation error for any other year.  From
    the start of a year [y] to the end of a later year [y'], [iter_between]
    yields the four seasons of every year from [y] to [y'] in order,
    [4 * (y' - y + 1)] periods. *)
Theorem iter_between_whole_years (y y' : Z) :
  (y <= 0 -> start_of_year y = inl (YearNotPositive y)
             /\ end_of_year y = inl (YearNotPositive y))
  /\ (0 < y -> y < y' ->
      exists first last,
        start_of_year y = inr first /\ end_of_year y' = inr last
        /\ first = mkYearSeason y SPRING /\ last = mkYearSeason y' WINTER
        /\ iter_between first last =
             flat_map (fun yr => map (mkYearSeason yr) members) (Py.range y (y' + 1))
        /\ Z.of_nat (length (iter_between first last)) = 4 * (y' - y + 1)).
Proof.
  split.
  - intros Hy. unfold start_of_year, end_of_year, new.
    replace (0 <? y) with false by (symmetry; apply Z.ltb_ge; lia).
    split; reflexivity.
  - intros Hpos Hy. exists (mkYearSeason y SPRING), (mkYearSeason y' WINTER).
    assert (iter_between (mkYearSeason y SPRING) (mkYearSeason y' WINTER) =
      flat_map (fun yr => map (mkYearSeason yr) members) (Py.range y (y' + 1))) as Heq.
    { unfold iter_between.
      replace (lt _ _) with false
        by (symmetry; apply lt_false; unfold lex_le, key; cbn; lia).
      cbn [year season].
      rewrite (PyFacts.range_cons y (y' + 1)) by lia.
      rewrite (range_snoc (y + 1) y') by lia.
      cbn [flat_map]. rewrite flat_map_app. cbn [flat_map]. rewrite app_nil_r.
      reflexivity. }
    unfold start_of_year, end_of_year, new.
    replace (0 <? y) with true by (symmetry; apply Z.ltb_lt; lia).
    replace (0 <? y') with true by (symmetry; apply Z.ltb_lt; lia).
    split; [reflexivity|]. split; [reflexivity|].
    split; [reflexivity|]. split; [reflexivity|].
    split; [exact Heq|].
    rewrite Heq, whole_years_length, range_length. lia.
Qed.

Lemma iter_between_whole_years_witness :
  start_of_year 0 = inl (YearNotPositive 0)
  /\ exists first last,
       start_of_year 1220 = inr first /\ end_of_year 1222 = inr last
       /\ Z.of_nat (length (iter_between first last)) = 12.
Proof.
  destruct (iter_between_whole_years 0 1) as [Hbad _].
  destruct (iter_between_whole_years 1220 1222) as [_ Hgood].
  split; [apply Hbad; lia|].
  destruct Hgood as (first & last & Hs & He & _ & _ & _ & Hlen); [lia..|].
  exists first, last. split; [exact Hs|]. split; [exact He|exact Hlen].
Defined.

End TimesExtras.

(** ** Enumerations *)

Module EnumExtras.
Import Vocabulary.

(** X5.  The four comparison operators of [Seasons] agree with each other
    ([>=] is [<=] flipped, [>] is [<] flipped, [<] is the negation of [>=],
    [<=] the negation of [>]), the order is antisymmetric and total, the alias
    [FALL] has the rank of [AUTUMN], and sorting the members gives them in
    declaration order. *)
Theorem Seasons_order (a b : Times.Seasons) :
  Times.season_ge a b = Times.season_le b a
  /\ Times.season_gt a b = Times.season_lt b a
  /\ Times.season_lt a b = negb (Times.season_ge a b)
  /\ Times.season_le a b = negb (Times.season_gt a b)
  /\ (Times.season_le a b = true -> Times.season_le b a = true -> a = b)
  /\ (Times.season_lt a b = true \/ a = b \/ Times.season_gt a b = true)
  /\ Times._enumeration_order Times.FALL = Times._enumeration_order Times.AUTUMN
  /\ Py.sorted Times.season_lt Times.members = Times.members.
Proof.
  destruct a, b; cbv; repeat split; auto; discriminate.
Qed.

Lemma Seasons_order_witness :
  Times.AUTUMN = Times.FALL.
Proof.
  destruct (Seasons_order Times.AUTUMN Times.FALL) as (_ & _ & _ & _ & Hanti & _).
  apply Hanti; reflexivity.
Defined.

(** X6.  [Seasons(s)] gives the member [m] exactly when [s] is the value of
    [m] or an alias of [m], spelled as declared; for every other string it
    raises the unknown-value error with that string. *)
Theorem Seasons_call_exact (s : string) :
  (forall m, Times.call s = inr m <-> answers_to Times._value_ Times._aliases_ m s)
  /\ ((forall m, ~ answers_to Times._value_ Times._aliases_ m s) ->
      Times.call s = inl (Times.NotAValidMember s)).
Proof.
  assert (forall m, Times.call s = inr m -> answers_to Times._value_ Times._aliases_ m s)
    as Hinv.
  { intros m. unfold Times.call.
    destruct (Times.by_value s) as [m'|] eqn:Hv.
    - intros [= <-]. apply find_some in Hv as [_ Hv]. left. apply String.eqb_eq, Hv.
    - destruct (Times._missing_ s) as [m'|] eqn:Hm; [|discriminate].
      intros [= <-]. apply find_some in Hm as [_ Hm]. right.
      apply bool_decide_eq_true in Hm. apply list_elem_of_In, Hm. }
  split.
  - intros m. split; [apply Hinv|].
    intros Hs. destruct m, Hs as [<-|Hs]; try reflexivity; cbn in Hs;
      try contradiction; destruct Hs as [<-|[]]; reflexivity.
  - intros Hnone. unfold Times.call.
    destruct (Times.by_value s) as [m|] eqn:Hv.
    { exfalso. apply (Hnone m), Hinv. unfold Times.call. rewrite Hv. reflexivity. }
    destruct (Times._missing_ s) as [m|] eqn:Hm; [|reflexivity].
    exfalso. apply (Hnone m), Hinv. unfold Times.call. rewrite Hv, Hm. reflexivity.
Qed.

Lemma Seasons_call_exact_witness :
  Times.call "Spring" = inl (Times.NotAValidMember "Spring").
Proof.
  apply (Seasons_call_exact "Spring").
  intros m [H|H]; destruct m; cbn in H; try discriminate H; try contradiction;
    destruct H as [H|[]]; discriminate H.
Defined.

Section ArtEnumBase.
Context {M : Type} (members : list M) (declared : M -> string * list string).

Lemma call_inv (s : string) (m : M) :
  Arm5Arts.call members declared s = inr m ->
  In m members
  /\ answers_to (Arm5Arts._value_ declared) (Arm5Arts._aliases_ declared) m (Py.lower s).
Proof.
  unfold Arm5Arts.call.
  destruct (Arm5Arts.by_value members declared s) as [m'|] eqn:Hv.
  - intros [= <-]. apply find_some in Hv as [Hin Hv]. split; [exact Hin|].
    left. apply String.eqb_eq in Hv. rewrite <- Hv.
    symmetry. apply StringFacts.lower_idem.
  - destruct (Arm5Arts._missing_ members declared s) as [m'|] eqn:Hm; [|discriminate].
    intros [= <-]. apply find_some in Hm as [Hin Hm]. split; [exact Hin|].
    apply AliasEnumSpec.missing_test_iff, Hm.
Qed.

Lemma call_rejects (s : string) :
  (forall m, In m members ->
     ~ answers_to (Arm5Arts._value_ declared) (Arm5Arts._aliases_ declared) m (Py.lower s)) ->
  Arm5Arts.call members declared s = inl (Arm5Arts.NotAValidMember s).
Proof.
  intros Hnone. unfold Arm5Arts.call.
  destruct (Arm5Arts.by_value members declared s) as [m|] eqn:Hv.
  { exfalso. destruct (call_inv s m) as [Hin Hc]; [|exact (Hnone m Hin Hc)].
    unfold Arm5Arts.call. rewrite Hv. reflexivity. }
  destruct (Arm5Arts._missing_ members declared s) as [m|] eqn:Hm; [|reflexivity].
  exfalso. destruct (call_inv s m) as [Hin Hc]; [|exact (Hnone m Hin Hc)].
  unfold Arm5Arts.call. rewrite Hv, Hm. reflexivity.
Qed.

End ArtEnumBase.

(** X7.  [HermeticTechniques(s)] and [HermeticForms(s)] give the member [m]
    exactly when the lower-cased [s] is the value or an alias of [m]; when it
    is neither for any member, the call raises the unknown-value error, which
    carries [s] as it was given. *)
Theorem art_enums_accept_exactly (s : string) :
  (forall m, Arm5Arts.HermeticTechniques_call s = inr m <->
     answers_to (Arm5Arts._value_ Arm5Arts.technique_declared)
                (Arm5Arts._aliases_ Arm5Arts.technique_declared) m (Py.lower s))
  /\ (forall m, Arm5Arts.HermeticForms_call s = inr m <->
     answers_to (Arm5Arts._value_ Arm5Arts.form_declared)
                (Arm5Arts._aliases_ Arm5Arts.form_declared) m (Py.lower s))
  /\ ((forall m, ~ answers_to (Arm5Arts._value_ Arm5Arts.technique_declared)
                    (Arm5Arts._aliases_ Arm5Arts.technique_declared) m (Py.lower s)) ->
      Arm5Arts.HermeticTechniques_call s = inl (Arm5Arts.NotAValidMember s))
  /\ ((forall m, ~ answers_to (Arm5Arts._value_ Arm5Arts.form_declared)
                    (Arm5Arts._aliases_ Arm5Arts.form_declared) m (Py.lower s)) ->
      Arm5Arts.HermeticForms_call s = inl (Arm5Arts.NotAValidMember s)).
Proof.
  split; [|split; [|split]].
  - intros m. split; [intros Hc; apply call_inv in Hc; tauto|].
    apply AliasEnumSpec.call_any_case; [|apply AliasEnumSpec.In_techniques].
    intros ? ? ? _ _. apply AliasEnumSpec.techniques_disjoint.
  - intros m. split; [intros Hc; apply call_inv in Hc; tauto|].
    apply AliasEnumSpec.call_any_case; [|apply AliasEnumSpec.In_forms].
    intros ? ? ? _ _. apply AliasEnumSpec.forms_disjoint.
  - intros Hnone. apply call_rejects. intros m _. apply Hnone.
  - intros Hnone. apply call_rejects. intros m _. apply Hnone.
Qed.

Lemma art_enums_accept_exactly_witness :
  Arm5Arts.HermeticTechniques_call "vim" = inl (Arm5Arts.NotAValidMember "vim")
  /\ Arm5Arts.HermeticForms_call "Vim" = inr Arm5Arts.VIM.
Proof.
  destruct (art_enums_accept_exactly "vim") as (_ & _ & Hrej & _).
  destruct (art_enums_accept_exactly "Vim") as (_ & Hacc & _ & _).
  split.
  - apply Hrej. intros m [H|H]; destruct m; cbn in H; try discriminate H;
      destruct H as [H|[]]; discriminate H.
  - apply Hacc. left. reflexivity.
Defined.

(** X8.  The alias of every technique and of every form is the first two
    letters of its value, and the enumeration built from those two letters is
    that member. *)
Theorem art_enums_two_letters :
  (forall m : Arm5Arts.HermeticTechniques,
      Arm5Arts._aliases_ Arm5Arts.technique_declared m
        = [Py.slice_to (Arm5Arts._value_ Arm5Arts.technique_declared m) 2]
      /\ Arm5Arts.HermeticTechniques_call
           (Py.slice_to (Arm5Arts._value_ Arm5Arts.technique_declared m) 2) = inr m)
  /\ (forall m : Arm5Arts.HermeticForms,
      Arm5Arts._aliases_ Arm5Arts.form_declared m
        = [Py.slice_to (Arm5Arts._value_ Arm5Arts.form_declared m) 2]
      /\ Arm5Arts.HermeticForms_call
           (Py.slice_to (Arm5Arts._value_ Arm5Arts.form_declared m) 2) = inr m).
Proof. split; intros []; split; reflexivity. Qed.

(** X9.  No string is both a technique and a form: what
    [HermeticTechniques] accepts, [HermeticForms] rejects, and the other way
    round. *)
Theorem technique_and_form_disjoint (s : string) :
  (forall t, Arm5Arts.HermeticTechniques_call s = inr t ->
     Arm5Arts.HermeticForms_call s = inl (Arm5Arts.NotAValidMember s))
  /\ (forall f, Arm5Arts.HermeticForms_call s = inr f ->
     Arm5Arts.HermeticTechniques_call s = inl (Arm5Arts.NotAValidMember s)).
Proof.
  split.
  - intros t Ht. apply call_inv in Ht as [_ Ht].
    apply call_rejects. intros f _ Hf. unfold answers_to in *.
    destruct t; cbn in Ht; destruct Ht as [Ht|[Ht|[]]]; rewrite <- Ht in Hf;
      destruct f; cbn in Hf; destruct Hf as [Hf|[Hf|[]]]; discriminate Hf.
  - intros f Hf. apply call_inv in Hf as [_ Hf].
    apply call_rejects. intros t _ Ht. unfold answers_to in *.
    destruct t; cbn in Ht; destruct Ht as [Ht|[Ht|[]]]; rewrite <- Ht in Hf;
      destruct f; cbn in Hf; destruct Hf as [Hf|[Hf|[]]]; discriminate Hf.
Qed.

Lemma technique_and_form_disjoint_witness :
  Arm5Arts.HermeticForms_call "Creo" = inl (Arm5Arts.NotAValidMember "Creo")
  /\ Arm5Arts.HermeticTechniques_call "IM" = inl (Arm5Arts.NotAValidMember "IM").
Proof.
  split.
  - apply (technique_and_form_disjoint "Creo") with (t := Arm5Arts.CREO). reflexivity.
  - apply (technique_and_form_disjoint "IM") with (f := Arm5Arts.IMAGINEM). reflexivity.
Defined.

End EnumExtras.

Module StrFlagExtras.
Import Pyarm5 Vocabulary StrFlagSpec.

Section StrFlag.
Context {M : Type} `{Countable M} (members : list M) (name : M -> string).

(** X12.  What [cls(s)] returns tells how many names [s] is a prefix of: a
    member is the only one whose name starts with [s]; the invalid-value error
    means no name does, and lists the whole class; the ambiguous-value error
    lists exactly the members whose names do, at least two of them.  The
    [KeyError] of [set.pop] is never raised. *)
Theorem StrFlag_call_outcomes (s : string) :
  match call members name s with
  | inr m =>
      In m members /\ ci_prefix s (name m)
      /\ forall m', In m' members -> ci_prefix s (name m') -> m' = m
  | inl (Invalid value valid) =>
      value = Py.lower s /\ valid = list_to_set members
      /\ forall m, In m members -> ~ ci_prefix s (name m)
  | inl (Ambiguous value matching) =>
      value = Py.lower s
      /\ (forall m, m ∈ matching <-> In m members /\ ci_prefix s (name m))
      /\ exists m1 m2, m1 <> m2 /\ m1 ∈ matching /\ m2 ∈ matching
  | inl KeyError => False
  end.
Proof.
  unfold call, _missing_.
  destruct (size (matches members name (Py.lower s))) as [|[|n]] eqn:Hsz.
  - apply size_empty_iff in Hsz. split; [reflexivity|]. split; [reflexivity|].
    intros m Hin Hp. apply (not_elem_of_empty (C:=gset M) m).
    rewrite <- Hsz. apply elem_of_matches. auto.
  - apply size_1_elem_of in Hsz as [m Hm]. apply leibniz_equiv in Hm.
    unfold set_pop. rewrite Hm, elements_singleton. cbn.
    assert (m ∈ matches members name (Py.lower s)) as Hin by (rewrite Hm; set_solver).
    apply elem_of_matches in Hin as [Hin Hp]. split; [exact Hin|]. split; [exact Hp|].
    intros m' Hin' Hp'.
    assert (m' ∈ matches members name (Py.lower s)) as Hm' by (apply elem_of_matches; auto).
    rewrite Hm in Hm'. set_solver.
  - split; [reflexivity|]. split; [intros m; apply elem_of_matches|].
    destruct (size_pos_elem_of (matches members name (Py.lower s))) as [m1 H1]; [lia|].
    destruct (size_pos_elem_of (matches members name (Py.lower s) ∖ {[m1]}))
      as [m2 H2].
    { rewrite size_difference by set_solver. rewrite size_singleton. lia. }
    apply elem_of_difference in H2 as [H2 Hne].
    exists m1, m2. split; [|split; assumption].
    intros ->. apply Hne. apply elem_of_singleton. reflexivity.
Qed.

End StrFlag.

Lemma ci_prefix_head (s n : string) (c : ascii) (s' : string) :
  s = String c s' -> ci_prefix s n ->
  exists rest, Py.lower n = String (Py.ascii_lower c) rest.
Proof. intros -> [rest Hr]. rewrite Hr. eexists. reflexivity. Qed.

Lemma ci_prefix_head2 (s n : string) (c d : ascii) (s' : string) :
  s = String c (String d s') -> ci_prefix s n ->
  exists rest, Py.lower n = String (Py.ascii_lower c) (String (Py.ascii_lower d) rest).
Proof. intros -> [rest Hr]. rewrite Hr. eexists. reflexivity. Qed.

(** X10.  In [HermeticTechnique] and [HermeticForm] the full name of a
    member, in any casing, gives that member: no name is a prefix of
    another. *)
Theorem StrFlag_full_name :
  (forall (m : HermeticTechnique) (s : string),
      Py.lower s = Py.lower (technique_name m) -> HermeticTechnique_call s = inr m)
  /\ (forall (m : HermeticForm) (s : string),
      Py.lower s = Py.lower (form_name m) -> HermeticForm_call s = inr m).
Proof.
  split; intros m s Hs; apply call_unique.
  1, 4: destruct m; cbn; tauto.
  1, 3: exists ""; rewrite Hs; destruct m; reflexivity.
  - intros m' _ Hp. apply ci_prefix_test in Hp. rewrite Hs in Hp.
    destruct m, m'; try reflexivity; discriminate Hp.
  - intros m' _ Hp. apply ci_prefix_test in Hp. rewrite Hs in Hp.
    destruct m, m'; try reflexivity; discriminate Hp.
Qed.

Lemma StrFlag_full_name_witness :
  HermeticTechnique_call "Rego" = inr REGO /\ HermeticForm_call "vim" = inr VIM.
Proof.
  destruct StrFlag_full_name as [Ht Hf].
  split; [apply (Ht REGO "Rego")|apply (Hf VIM "vim")]; reflexivity.
Defined.

(** X11.  Every non-empty case-insensitive prefix of a technique's name
    gives that technique, and every prefix of two letters or more of a form's
    name gives that form. *)
Theorem StrFlag_abbreviations :
  (forall (m : HermeticTechnique) (s : string),
      s <> "" -> ci_prefix s (technique_name m) -> HermeticTechnique_call s = inr m)
  /\ (forall (m : HermeticForm) (s : string),
      (2 <= String.length s)%nat -> ci_prefix s (form_name m) ->
      HermeticForm_call s = inr m).
Proof.
  split.
  - intros m s Hne Hp. apply call_unique; [destruct m; cbn; tauto|exact Hp|].
    intros m' _ Hp'. destruct s as [|c s']; [contradiction|].
    destruct (ci_prefix_head _ _ c s' eq_refl Hp) as [r Hr].
    destruct (ci_prefix_head _ _ c s' eq_refl Hp') as [r' Hr'].
    destruct m, m'; try reflexivity; cbn in Hr, Hr';
      injection Hr as Hr _; injection Hr' as Hr' _; rewrite <- Hr in Hr'; discriminate Hr'.
  - intros m s Hlen Hp. apply call_unique; [destruct m; cbn; tauto|exact Hp|].
    intros m' _ Hp'. destruct s as [|c [|d s']]; [cbn in Hlen; lia..|].
    destruct (ci_prefix_head2 _ _ c d s' eq_refl Hp) as [r Hr].
    destruct (ci_prefix_head2 _ _ c d s' eq_refl Hp') as [r' Hr'].
    destruct m, m'; try reflexivity; cbn in Hr, Hr';
      injection Hr as Hr1 Hr2 _; injection Hr' as Hr1' Hr2' _;
      rewrite <- Hr1 in Hr1'; rewrite <- Hr2 in Hr2';
      first [discriminate Hr1'|discriminate Hr2'].
Qed.

Lemma StrFlag_abbreviations_witness :
  HermeticTechnique_call "P" = inr PERDO /\ HermeticForm_call "Im" = inr IMAGINEM.
Proof.
  destruct StrFlag_abbreviations as [Ht Hf]. split.
  - apply (Ht PERDO "P"); [discriminate|]. exists "erdo". reflexivity.
  - apply (Hf IMAGINEM "Im"); [cbn; lia|]. exists "aginem". reflexivity.
Defined.

End StrFlagExtras.

(** ** The digest path *)

Module PathExtras.
Import HashIO PathFacts StringFacts.

Lemma append_assoc (a b c : string) : (a +:+ b) +:+ c = a +:+ (b +:+ c).
Proof. induction a as [|x a IH]; [reflexivity|]. rewrite !append_cons, IH. reflexivity. Qed.

Lemma append_inj (a b x y : string) :
  String.length a = String.length b -> a +:+ x = b +:+ y -> a = b /\ x = y.
Proof.
  revert b. induction a as [|c a IH]; intros [|d b] Hlen Heq;
    try discriminate Hlen.
  - auto.
  - rewrite !append_cons in Heq. injection Heq as -> Heq.
    destruct (IH b) as [-> ->]; [cbn in Hlen; lia|exact Heq|]. auto.
Qed.

Lemma append_inj_r (a b t : string) : a +:+ t = b +:+ t -> a = b.
Proof.
  intros Heq. apply (append_inj a b t t); [|exact Heq].
  apply (f_equal String.length) in Heq. rewrite !length_app in Heq. lia.
Qed.

Lemma rfind_none (s : string) (c : ascii) :
  Py.char_in c s = false -> Py.rfind s c = -1.
Proof.
  induction s as [|d s IH]; cbn; [reflexivity|].
  destruct (Ascii.eqb c d); [discriminate|]. intros Hs. rewrite (IH Hs). reflexivity.
Qed.

Lemma rfind_ge (s : string) (c : ascii) : -1 <= Py.rfind s c.
Proof.
  induction s as [|d s IH]; cbn; [lia|].
  destruct (Py.rfind s c <? 0) eqn:Hr; [destruct (Ascii.eqb c d); lia|lia].
Qed.

(** The last occurrence splits the string. *)
Lemma rfind_split (s : string) (c : ascii) :
  0 <= Py.rfind s c ->
  exists a b, s = a +:+ String c b
              /\ Py.rfind s c = Z.of_nat (String.length a)
              /\ Py.char_in c b = false.
Proof.
  induction s as [|d s IH]; cbn; [lia|].
  destruct (Py.rfind s c <? 0) eqn:Hr.
  - apply Z.ltb_lt in Hr.
    destruct (Ascii.eqb_spec c d) as [<-|Hcd]; [|lia].
    intros _. exists "", s. split; [reflexivity|]. split; [reflexivity|].
    clear IH. induction s as [|e s IH]; [reflexivity|].
    cbn in *. destruct (Py.rfind s c <? 0) eqn:Hr'.
    + destruct (Ascii.eqb c e); [lia|]. apply IH. apply Z.ltb_lt in Hr'. exact Hr'.
    + pose proof (rfind_ge s c). apply Z.ltb_ge in Hr'. lia.
  - apply Z.ltb_ge in Hr. intros _.
    destruct (IH Hr) as (a & b & -> & Hlen & Hb).
    exists (String d a), b. split; [reflexivity|].
    split; [cbn [String.length]; lia|exact Hb].
Qed.

Lemma rfind_last (a b : string) (c : ascii) :
  Py.char_in c b = false -> Py.rfind (a +:+ String c b) c = Z.of_nat (String.length a).
Proof.
  intros Hb. induction a as [|d a IH].
  - change ("" +:+ String c b) with (String c b). cbn.
    rewrite (rfind_none b c Hb). cbn. rewrite Ascii.eqb_refl. reflexivity.
  - rewrite append_cons. cbn [Py.rfind String.length]. rewrite IH.
    destruct (Z.of_nat (String.length a) <? 0) eqn:Hr; [apply Z.ltb_lt in Hr; lia|lia].
Qed.

Lemma substring_0_app (a b : string) : String.substring 0 (String.length a) (a +:+ b) = a.
Proof.
  induction a as [|c a IH]; [destruct b; reflexivity|].
  rewrite append_cons. cbn. rewrite IH. reflexivity.
Qed.

Lemma substring_skip_app (a b : string) :
  String.substring (String.length a) (String.length b) (a +:+ b) = b.
Proof.
  induction a as [|c a IH].
  - change ("" +:+ b) with b. cbn [String.length].
    induction b as [|d b IHb]; [reflexivity|]. cbn. rewrite IHb. reflexivity.
  - rewrite append_cons. cbn. exact IH.
Qed.

Lemma slice_to_app (a b : string) : Py.slice_to (a +:+ b) (Z.of_nat (String.length a)) = a.
Proof. unfold Py.slice_to. rewrite Nat2Z.id. apply substring_0_app. Qed.

Lemma slice_from_app (a b : string) :
  Py.slice_from (a +:+ b) (Z.of_nat (String.length a)) = b.
Proof.
  unfold Py.slice_from. rewrite Nat2Z.id, length_app.
  replace (String.length a + String.length b - String.length a)%nat
    with (String.length b) by lia.
  apply substring_skip_app.
Qed.

(** [suffix] in terms of how the name splits at its last dot. *)
Lemma suffix_cases (p : Path) :
  (exists stem ext,
      name p = stem +:+ String "." ext /\ stem <> "" /\ ext <> ""
      /\ Py.char_in "." ext = false /\ suffix p = String "." ext)
  \/ (suffix p = ""
      /\ forall stem ext, name p = stem +:+ String "." ext ->
                          Py.char_in "." ext = false -> stem = "" \/ ext = "").
Proof.
  unfold suffix. destruct (_ && _) eqn:Hc.
  - left. apply andb_true_iff in Hc as [H0 H1].
    apply Z.ltb_lt in H0, H1.
    destruct (rfind_split (name p) ".") as (a & b & Hn & Hi & Hb); [lia|].
    exists a, b. rewrite Hi, Hn in *. rewrite length_app in H1. cbn [String.length] in H1.
    split; [reflexivity|].
    split; [intros ->; cbn in H0; lia|].
    split; [intros ->; cbn in H1; lia|].
    split; [exact Hb|apply slice_from_app].
  - right. split; [reflexivity|]. intros stem ext Hn Hext.
    rewrite Hn, (rfind_last stem ext "." Hext), length_app in Hc.
    cbn [String.length] in Hc.
    apply andb_false_iff in Hc as [Hc|Hc].
    + apply Z.ltb_ge in Hc. left. destruct stem; [reflexivity|cbn in Hc; lia].
    + apply Z.ltb_ge in Hc. right. destruct ext; [reflexivity|cbn in Hc; lia].
Qed.

(** The name of the digest file, in both cases. *)
Lemma hash_path_name_cases (p hp : Path) (h : string) :
  hash_path_of p h = inr hp ->
  parent hp = parent p
  /\ ((exists stem ext,
         name p = stem +:+ String "." ext /\ stem <> "" /\ ext <> ""
         /\ Py.char_in "." ext = false
         /\ name hp = ((stem +:+ ".") +:+ String "." ext) +:+ "." +:+ h)
      \/ ((forall stem ext, name p = stem +:+ String "." ext ->
                            Py.char_in "." ext = false -> stem = "" \/ ext = "")
          /\ name hp = name p +:+ "." +:+ h)).
Proof.
  intros Hw. pose proof (with_suffix_name _ _ _ Hw) as [Hpar Hname].
  split; [exact Hpar|].
  destruct (suffix_cases p) as [(stem & ext & Hn & Hs & He & Hdot & Hsuf)|[Hsuf Hno]].
  - left. exists stem, ext. repeat (split; [assumption|]).
    rewrite Hname. unfold hash_suffix_of. rewrite Hsuf. cbn [String.eqb negb].
    rewrite Hn, length_app.
    replace (Z.of_nat (String.length stem + String.length (String "." ext))
             - Z.of_nat (String.length (String "." ext)))
      with (Z.of_nat (String.length stem)) by lia.
    rewrite slice_to_app, !append_assoc. reflexivity.
  - right. split; [exact Hno|]. rewrite Hname. unfold hash_suffix_of.
    rewrite Hsuf. reflexivity.
Qed.

Lemma append_dot_nonempty (s : string) : s +:+ "." <> "".
Proof. destruct s; discriminate. Qed.

(** X14.  Two paths with the same digest file, for the same algorithm, are
    the same path: distinct tracked files never share a digest file. *)
Theorem hash_path_injective (p1 p2 hp : Path) (h : string) :
  hash_path_of p1 h = inr hp -> hash_path_of p2 h = inr hp -> p1 = p2.
Proof.
  intros H1 H2.
  destruct (hash_path_name_cases _ _ _ H1) as [Hpar1 Hn1].
  destruct (hash_path_name_cases _ _ _ H2) as [Hpar2 Hn2].
  assert (name p1 = name p2) as Hname.
  { destruct Hn1 as [(s1 & e1 & Hp1 & Hs1 & He1 & Hd1 & Hh1)|[Hno1 Hh1]];
    destruct Hn2 as [(s2 & e2 & Hp2 & Hs2 & He2 & Hd2 & Hh2)|[Hno2 Hh2]];
      rewrite Hh1 in Hh2; apply append_inj_r in Hh2.
    - pose proof (f_equal (fun s => Py.rfind s ".") Hh2) as Hr. cbn beta in Hr.
      rewrite !rfind_last in Hr by assumption.
      destruct (append_inj _ _ _ _ (Nat2Z.inj _ _ Hr) Hh2) as [Hs He].
      apply append_inj_r in Hs. injection He as ->. subst s2. congruence.
    - exfalso. destruct (Hno2 (s1 +:+ ".") e1) as [Hc|Hc];
        [symmetry; exact Hh2|exact Hd1|exact (append_dot_nonempty _ Hc)|exact (He1 Hc)].
    - exfalso. destruct (Hno1 (s2 +:+ ".") e2) as [Hc|Hc];
        [exact Hh2|exact Hd2|exact (append_dot_nonempty _ Hc)|exact (He2 Hc)].
    - exact Hh2. }
  destruct p1, p2. cbn in *. congruence.
Qed.

Lemma hash_path_injective_witness :
  mkPath ["tmp"] "data.csv" = mkPath ["tmp"] "data.csv".
Proof.
  apply (hash_path_injective (mkPath ["tmp"] "data.csv") (mkPath ["tmp"] "data.csv")
           (mkPath ["tmp"] "data..csv.sha256") "sha256"); reflexivity.
Defined.

Lemma char_in_app (c : ascii) (a b : string) :
  Py.char_in c (a +:+ b) = Py.char_in c a || Py.char_in c b.
Proof.
  induction a as [|d a IH]; [reflexivity|].
  rewrite append_cons. cbn. destruct (Ascii.eqb c d); [reflexivity|exact IH].
Qed.

Lemma suffix_char_in (p : Path) (c : ascii) :
  Py.char_in c (name p) = false -> Py.char_in c (suffix p) = false.
Proof.
  intros Hn. destruct (suffix_cases p) as [(stem & ext & Hp & _ & _ & _ & ->)|[-> _]];
    [|reflexivity].
  rewrite Hp, char_in_app in Hn. apply orb_false_iff in Hn as [_ Hn]. exact Hn.
Qed.

(** X13.  The digest file is a sibling of the tracked file (same parent),
    never the tracked file itself; its name is longer than the name of the
    tracked file and the algorithm together and ends with a dot and the
    algorithm.  It exists for every path with a non-empty name when name and
    algorithm are free of [/]; a path with an empty name has none. *)
Theorem hash_path_sibling (p : Path) (h : string) :
  (forall hp, hash_path_of p h = inr hp ->
     parent hp = parent p /\ hp <> p
     /\ (String.length (name p) + String.length h < String.length (name hp))%nat
     /\ exists front, name hp = front +:+ "." +:+ h)
  /\ (name p <> "" -> h <> "" ->
      Py.char_in "/" (name p) = false -> Py.char_in "/" h = false ->
      exists hp, hash_path_of p h = inr hp)
  /\ (name p = "" -> exists e, hash_path_of p h = inl e).
Proof.
  split; [|split].
  - intros hp Hw. split; [apply (with_suffix_name _ _ _ Hw)|].
    split; [apply (hash_path_neq _ _ _ Hw)|].
    destruct (hash_path_name_cases _ _ _ Hw)
      as [_ [(stem & ext & Hp & _ & _ & _ & ->)|[_ ->]]].
    + split; [|eauto]. rewrite Hp, !length_app. cbn [String.length]. lia.
    + split; [|eauto]. rewrite !length_app. cbn [String.length]. lia.
  - intros Hn Hh Hsn Hsh. unfold hash_path_of, with_suffix.
    assert (Py.char_in "/" (hash_suffix_of p h) = false) as ->.
    { unfold hash_suffix_of. destruct (negb _);
        rewrite ?char_in_app, ?(suffix_char_in p "/" Hsn), ?Hsh; reflexivity. }
    assert (exists t, hash_suffix_of p h = String "." t /\ t <> "") as (t & -> & Ht).
    { unfold hash_suffix_of. destruct (negb _).
      - eexists. split; [reflexivity|]. destruct (suffix p); discriminate.
      - exists h. split; [reflexivity|exact Hh]. }
    cbn [String.eqb Ascii.eqb negb andb orb Py.startswith String.prefix].
    destruct t as [|c t]; [contradiction|].
    destruct (ascii_dec "." "."); [|contradiction]. cbn.
    apply String.eqb_neq in Hn. rewrite Hn. eauto.
  - intros Hn. unfold hash_path_of, with_suffix.
    destruct (Py.char_in "/" _); [eauto|]. destruct (_ || _); [eauto|].
    rewrite Hn. cbn. eauto.
Qed.

Lemma hash_path_sibling_witness :
  (exists hp, hash_path_of (mkPath ["tmp"] "archive.tar.gz") "sha256" = inr hp)
  /\ (exists e, hash_path_of (mkPath [] "") "sha256" = inl e).
Proof.
  destruct (hash_path_sibling (mkPath ["tmp"] "archive.tar.gz") "sha256") as (_ & Hok & _).
  destruct (hash_path_sibling (mkPath [] "") "sha256") as (_ & _ & Hbad).
  split; [apply Hok; [discriminate|discriminate|reflexivity|reflexivity]|].
  apply Hbad. reflexivity.
Defined.

End PathExtras.

(** ** Hash-validated files *)

Module HashIOExtras.
Import HashIO HashOpenPhases ExtraVocabulary PathFacts HashIOFacts.


(** What a call of [open] does to the open files, and which errors it has. *)
Lemma builtins_open_outcome (site : Site) (p : Path) (mode : string) (w : World) :
  match builtins_open site p mode w with
  | (inl e, w') =>
      open_files w' = open_files w /\ fs w' = fs w
      /\ (e = ValueError_invalid_mode mode \/ e = FileNotFoundError p
          \/ e = FileExistsError p)
  | (inr f, w') =>
      open_files w !! fileno f = None
      /\ exists o, open_files w' = <[fileno f := o]> (open_files w) /\ of_path o = p
  end.
Proof.
  rewrite builtins_open_eq. cbn zeta.
  destruct (parse_mode mode) as [m|]; [|cbn; auto].
  destruct (reading m && _); [cbn; auto 6|].
  destruct (creating m && _); [cbn; auto 6|].
  destruct (negb _ && _); [cbn; auto 6|].
  split; [apply fresh_fd_free|]. eexists. split; reflexivity.
Qed.

Lemma parse_mode_kind (mode : string) (m : Mode) :
  parse_mode mode = Some m ->
  creating m = Py.char_in "x" mode /\ reading m = Py.char_in "r" mode
  /\ writing m = Py.char_in "w" mode /\ appending m = Py.char_in "a" mode
  /\ (Nat.b2n (creating m) + Nat.b2n (reading m)
      + Nat.b2n (writing m) + Nat.b2n (appending m) = 1)%nat.
Proof.
  unfold parse_mode.
  destruct (negb (forallb _ _)); [discriminate|].
  destruct (negb (bool_decide _)); [discriminate|].
  destruct (_ && _); [discriminate|].
  destruct (Nat.eqb _ 1) eqn:Hn; [|discriminate].
  intros [= <-]. cbn. apply Nat.eqb_eq in Hn. auto.
Qed.

Lemma write_or_append_spec (mode : string) :
  write_or_append mode = Py.char_in "w" mode || Py.char_in "a" mode.
Proof. unfold write_or_append. cbn. rewrite orb_false_r. reflexivity. Qed.

Lemma parse_mode_reading (mode : string) (m : Mode) :
  parse_mode mode = Some m -> reading m = true ->
  write_or_append mode = false /\ writing m = false /\ creating m = false.
Proof.
  intros Hm Hr. apply parse_mode_kind in Hm as (Hx & _ & Hw & Ha & Hone).
  rewrite write_or_append_spec, <- Hw, <- Ha. rewrite Hr in Hone.
  destruct (creating m), (writing m), (appending m); cbn in Hone; try lia; auto.
Qed.

Lemma classic_mismatch (h : bytes -> bytes) (file hp : Path) (w : World) :
  mismatch h file hp w \/ ~ mismatch h file hp w.
Proof.
  unfold mismatch.
  destruct (fs w !! file) as [c|]; [|right; intros (? & ? & ? & _); discriminate].
  destruct (fs w !! hp) as [stored|]; [|right; intros (? & ? & _ & ? & _); discriminate].
  destruct (decide (stored = h c)) as [He|He].
  - right. intros (c' & s' & [= <-] & [= <-] & Hne). contradiction.
  - left. eauto.
Qed.

Section Hashlib.
Context (hashlib : string -> option (bytes -> bytes)).


(** The validation block in every case. *)
Lemma validation_cases (on_error : OnError) (hash_name : string) (h : bytes -> bytes)
    (file hp : Path) (w : World) :
  hashlib hash_name = Some h ->
  exists r pre,
    validation hashlib on_error hash_name file hp w =
      (r, mkWorld (fs w) (dirs w) (open_files w) (log w ++ pre))
    /\ Forall validation_event pre
    /\ ((exists p e a, In (EvWarn p e a) pre) <-> on_error = Warn /\ mismatch h file hp w)
    /\ (r = inr tt \/ exists c stored,
          r = inl (OSError_modified file stored (h c))
          /\ fs w !! file = Some c /\ fs w !! hp = Some stored)
    /\ (r = inr tt <-> ~ (on_error = Raise /\ mismatch h file hp w)).
Proof.
  intros Hh.
  assert (forall P : Prop, (on_error = Ignore \/ fs w !! file = None \/ fs w !! hp = None) ->
          ~ (P /\ on_error <> Ignore /\ mismatch h file hp w)) as Hnm.
  { intros P Hs (_ & Hne & (c & stored & Hf & Hd & _)).
    destruct Hs as [?|[Hs|Hs]]; congruence. }
  destruct (decide (on_error = Ignore)) as [Hi|Hi];
    [|destruct (fs w !! file) as [c|] eqn:Hf;
      [destruct (fs w !! hp) as [stored|] eqn:Hd|]].
  2: { rewrite (validation_checked hashlib on_error hash_name h file hp c stored w)
         by assumption.
       cbn zeta.
       assert (mismatch h file hp w <-> stored <> h c) as Hmm.
       { split.
         - intros (c' & s' & Hf' & Hd' & Hne). congruence.
         - intros Hne. exists c, stored. auto. }
       destruct (decide (stored = h c)) as [He|He].
       - eexists _, _. split; [reflexivity|]. split; [repeat constructor|].
         split; [|split; [auto|]].
         + split; [intros (? & ? & ? & [H|[H|[]]]); discriminate H|].
           intros [_ Hm]. apply Hmm in Hm. contradiction.
         + split; [|reflexivity]. intros _ [_ Hm]. apply Hmm in Hm. contradiction.
       - destruct on_error; [| |contradiction].
         + eexists _, _. split; [reflexivity|]. split; [repeat constructor|].
           split; [|split; [right; eauto|]].
           * split; [intros (? & ? & ? & [H|[H|[]]]); discriminate H|].
             intros [H _]. discriminate H.
           * split; [discriminate|]. intros Hn. exfalso. apply Hn. split; [reflexivity|].
             apply Hmm, He.
         + eexists _, _. split; [reflexivity|]. split; [repeat constructor|].
           split; [|split; [auto|]].
           * split; [intros _; split; [reflexivity|apply Hmm, He]|].
             intros _. eexists _, _, _. right. right. left. reflexivity.
           * split; [|reflexivity]. intros _ [H _]. discriminate H. }
  all: exists (inr tt), []; rewrite validation_skipped by auto;
    (split; [destruct w; cbn; rewrite app_nil_r; reflexivity|]);
    (split; [constructor|]);
    (split; [split; [intros (? & ? & ? & []) |
                     intros [Hw Hm]; exfalso;
                     apply (Hnm True); [auto|]; split; [exact I|]; split; [congruence|exact Hm]]|]);
    (split; [auto|]); (split; [|reflexivity]);
    intros _ [Hr Hm]; apply (Hnm True); [auto|]; split; [exact I|]; split; [congruence|exact Hm].
Qed.

Lemma hash_open_eq (how : bool) (on_error : OnError) (hash_name : string)
    (file : Path) (mode : string) (w : World) :
  hash_open hashlib how on_error hash_name file mode w =
    match hashlib hash_name with
    | None => (inl (ValueError_unsupported_hash hash_name), w)
    | Some _ =>
        match hash_path_of file hash_name with
        | inl e => (inl (ValueError_path e), w)
        | inr hp =>
            (validation hashlib on_error hash_name file hp ;;;
             opening how hash_name file hp mode) w
        end
    end.
Proof.
  unfold hash_open, hashlib_new.
  destruct (hashlib hash_name); [|reflexivity].
  destruct (hash_path_of file hash_name); reflexivity.
Qed.

Lemma before_open_other (hp q : Path) (mode : string) (w : World) :
  q <> hp -> fs (before_open hp mode w) !! q = fs w !! q.
Proof.
  intros Hq. unfold before_open. destruct (_ && _); [|reflexivity].
  cbn. apply lookup_delete_ne. congruence.
Qed.

Lemma before_open_log (hp : Path) (mode : string) (w : World) :
  log (before_open hp mode w) =
    log w ++ (if write_or_append mode && is_file hp w then [EvUnlink hp] else []).
Proof.
  unfold before_open. destruct (_ && _); [reflexivity|]. rewrite app_nil_r. reflexivity.
Qed.

(** X15.  Whatever its arguments and outcome, [hash_open] leaves every file
    other than the tracked file and its digest file as it was.  When it
    raises, no file object stays open; when it returns, exactly one new file
    object is open, on the tracked file. *)
Theorem hash_open_frame (how : bool) (on_error : OnError) (hash_name : string)
    (file : Path) (mode : string) (w : World) :
  let r := hash_open hashlib how on_error hash_name file mode w in
  (forall q, q <> file -> hash_path_of file hash_name <> inr q ->
             fs (snd r) !! q = fs w !! q)
  /\ match fst r with
     | inl _ => open_files (snd r) = open_files w
     | inr wrapper =>
         open_files w !! fileno (HashIO.file wrapper) = None
         /\ exists o, open_files (snd r) = <[fileno (HashIO.file wrapper) := o]> (open_files w)
                      /\ of_path o = file
     end.
Proof.
  cbn zeta. rewrite hash_open_eq.
  destruct (hashlib hash_name) as [h|] eqn:Hh; [|split; reflexivity].
  destruct (hash_path_of file hash_name) as [e|hp] eqn:Hhp; [split; reflexivity|].
  unfold bind.
  destruct (validation_cases on_error hash_name h file hp w Hh)
    as (r0 & pre & -> & _).
  destruct r0 as [e|[]]; [split; reflexivity|].
  rewrite opening_spec.
  set (w1 := mkWorld (fs w) (dirs w) (open_files w) (log w ++ pre)).
  pose proof (builtins_open_outcome InHashOpen file mode (before_open hp mode w1)) as Hout.
  destruct (builtins_open_frame InHashOpen file mode (before_open hp mode w1)) as [_ Hfr].
  rewrite before_open_files in Hout.
  destruct (builtins_open InHashOpen file mode (before_open hp mode w1)) as [[e|f] w'].
  - destruct Hout as (Hof & _). split; [|exact Hof].
    intros q Hq Hqh. cbn in *. rewrite (Hfr q Hq).
    apply (before_open_other hp q mode w1). congruence.
  - split.
    + intros q Hq Hqh. cbn in *. rewrite (Hfr q Hq).
      apply (before_open_other hp q mode w1). congruence.
    + cbn [fst snd]. destruct (write_or_append mode && how); exact Hout.
Qed.

(** X16.  [hash_open] in a reading mode ([r], [rb], [r+], ...) changes no
    file at all, under every policy and whether it returns or raises; in any
    mode without [w] or [a] it leaves the digest file as it was. *)
Theorem hash_open_without_w_or_a (how : bool) (on_error : OnError) (hash_name : string)
    (file : Path) (mode : string) (w : World) :
  let r := hash_open hashlib how on_error hash_name file mode w in
  (forall m, parse_mode mode = Some m -> reading m = true -> fs (snd r) = fs w)
  /\ (write_or_append mode = false ->
      forall hp, hash_path_of file hash_name = inr hp -> fs (snd r) !! hp = fs w !! hp).
Proof.
  cbn zeta. rewrite hash_open_eq.
  destruct (hashlib hash_name) as [h|] eqn:Hh; [|split; reflexivity].
  destruct (hash_path_of file hash_name) as [e|hp] eqn:Hhp; [split; [reflexivity|discriminate]|].
  unfold bind.
  destruct (validation_cases on_error hash_name h file hp w Hh)
    as (r0 & pre & -> & _).
  destruct r0 as [e|[]]; [split; [reflexivity|]; intros _ ? _; reflexivity|].
  rewrite opening_world.
  set (w1 := mkWorld (fs w) (dirs w) (open_files w) (log w ++ pre)).
  split.
  - intros m Hm Hr. destruct (parse_mode_reading mode m Hm Hr) as (Hwa & Hw & Hx).
    unfold before_open. rewrite Hwa. cbn [andb].
    rewrite builtins_open_eq, Hm. cbn zeta. rewrite Hr, Hw, Hx. cbn [andb].
    unfold is_file. cbn [fs w1].
    destruct (fs w !! file) as [c|] eqn:Hf.
    + rewrite bool_decide_eq_true_2 by eauto. cbn. apply insert_id, Hf.
    + rewrite bool_decide_eq_false_2 by (intros [? ?]; discriminate). reflexivity.
  - intros Hwa hp' [= <-].
    destruct (builtins_open_frame InHashOpen file mode (before_open hp mode w1)) as [_ Hfr].
    rewrite (Hfr hp (hash_path_neq _ _ _ Hhp)).
    unfold before_open. rewrite Hwa. reflexivity.
Qed.

(** X17.  [hash_open] raises the [OSError] of a modified file exactly when
    the policy is [Raise] and the stored digest disagrees with the file; it
    logs a warning exactly when the policy is [Warn] and they disagree. *)
Theorem mismatch_signal (how : bool) (on_error : OnError) (hash_name : string)
    (h : bytes -> bytes) (file hp : Path) (mode : string) (w : World) :
  hashlib hash_name = Some h -> hash_path_of file hash_name = inr hp ->
  let r := hash_open hashlib how on_error hash_name file mode w in
  ((exists p e a, fst r = inl (OSError_modified p e a))
     <-> on_error = Raise /\ mismatch h file hp w)
  /\ exists evs, log (snd r) = log w ++ evs
       /\ ((exists p e a, In (EvWarn p e a) evs)
             <-> on_error = Warn /\ mismatch h file hp w).
Proof.
  intros Hh Hhp. cbn zeta. rewrite hash_open_eq, Hh, Hhp. unfold bind.
  destruct (validation_cases on_error hash_name h file hp w Hh)
    as (r0 & pre & -> & _ & Hwarn & Hr0 & Hok).
  destruct r0 as [e|[]].
  - destruct Hr0 as [Hr0|(c & stored & [= ->] & _)]; [discriminate|].
    cbn [fst snd log]. split.
    + split; [intros _|eauto].
      destruct (decide (on_error = Raise)) as [Hpol|Hpol].
      * split; [exact Hpol|].
        destruct (classic_mismatch h file hp w) as [Hm|Hm]; [exact Hm|].
        exfalso. assert (inl (OSError_modified file stored (h c)) = inr tt) as Habs
          by (apply Hok; tauto). discriminate Habs.
      * exfalso. assert (inl (OSError_modified file stored (h c)) = inr tt) as Habs
          by (apply Hok; tauto). discriminate Habs.
    + exists pre. split; [reflexivity|exact Hwarn].
  - rewrite opening_spec.
    set (w1 := mkWorld (fs w) (dirs w) (open_files w) (log w ++ pre)).
    pose proof (builtins_open_outcome InHashOpen file mode (before_open hp mode w1)) as Hout.
    destruct (builtins_open_frame InHashOpen file mode (before_open hp mode w1)) as [Hlog _].
    rewrite before_open_log in Hlog. cbn [log w1] in Hlog.
    assert (~ (on_error = Raise /\ mismatch h file hp w)) as Hna by (apply Hok; reflexivity).
    destruct (builtins_open InHashOpen file mode (before_open hp mode w1)) as [[e|f] w'];
      cbn [fst snd] in *.
    + split.
      * split; [|intros Hab; contradiction].
        intros (p & e' & a & [= ->]). destruct Hout as (_ & _ & [H|[H|H]]); discriminate H.
      * eexists. split; [rewrite Hlog, <- !app_assoc; reflexivity|].
        rewrite <- Hwarn. split.
        -- intros (p & e' & a & Hin). exists p, e', a.
           rewrite !in_app_iff in Hin. destruct Hin as [Hin|[Hin|[Hin|[]]]];
             [exact Hin| |discriminate Hin].
           destruct (_ && _); [destruct Hin as [Hin|[]]; discriminate Hin|destruct Hin].
        -- intros (p & e' & a & Hin). exists p, e', a. apply in_app_iff. auto.
    + split.
      * split; [|intros Hab; contradiction].
        intros (p & e' & a & Habs). discriminate Habs.
      * eexists. split; [rewrite Hlog, <- !app_assoc; reflexivity|].
        rewrite <- Hwarn. split.
        -- intros (p & e' & a & Hin). exists p, e', a.
           rewrite !in_app_iff in Hin. destruct Hin as [Hin|[Hin|[Hin|[]]]];
             [exact Hin| |discriminate Hin].
           destruct (_ && _); [destruct Hin as [Hin|[]]; discriminate Hin|destruct Hin].
        -- intros (p & e' & a & Hin). exists p, e', a. apply in_app_iff. auto.
Qed.

(** A call that the validation lets through and whose mode [open] accepts,
    on a file that exists or whose directory does. *)
Lemma hash_open_success (how : bool) (on_error : OnError) (hash_name : string)
    (h : bytes -> bytes) (file hp : Path) (mode : string) (m : Mode) (w : World) :
  hashlib hash_name = Some h -> hash_path_of file hash_name = inr hp ->
  ~ (on_error = Raise /\ mismatch h file hp w) ->
  parse_mode mode = Some m ->
  reading m && negb (is_file file w) = false ->
  creating m && is_file file w = false ->
  negb (is_file file w) && negb (is_dir (parent file) w) = false ->
  exists pre,
    let w1 := before_open hp mode (mkWorld (fs w) (dirs w) (open_files w) (log w ++ pre)) in
    let content := if writing m then [] else default [] (fs w !! file) in
    let fd := fresh (dom (open_files w)) in
    hash_open hashlib how on_error hash_name file mode w =
      (inr (mkWrapper (mkFile fd)
              (if write_or_append mode && how then Some file else None)
              (if write_or_append mode && how then Some hp else None)
              (if write_or_append mode && how then hash_name else "sha256")),
       mkWorld (<[file := content]> (fs w1)) (dirs w)
         (<[fd := mkOpenFile file (reading m || updating m)
                    (writing m || appending m || creating m || updating m)
                    (appending m)
                    (if appending m then length content else O) []]> (open_files w))
         (log w1 ++ [EvOpen InHashOpen file mode])).
Proof.
  intros Hh Hhp Hok Hm Hr Hx Hdir.
  destruct (validation_cases on_error hash_name h file hp w Hh)
    as (r0 & pre & Hv & _ & _ & _ & Hr0).
  apply Hr0 in Hok. subst r0. exists pre. cbn zeta.
  rewrite hash_open_eq, Hh, Hhp. unfold bind. rewrite Hv, opening_spec.
  set (w0 := mkWorld (fs w) (dirs w) (open_files w) (log w ++ pre)).
  pose proof (hash_path_neq _ _ _ Hhp) as Hne.
  assert (fs (before_open hp mode w0) !! file = fs w !! file) as Hf
    by (apply (before_open_other hp file mode w0); congruence).
  assert (is_file file (before_open hp mode w0) = is_file file w) as Hif
    by (unfold is_file; rewrite Hf; reflexivity).
  assert (is_dir (parent file) (before_open hp mode w0) = is_dir (parent file) w) as Hid
    by (unfold is_dir; rewrite before_open_dirs; reflexivity).
  rewrite builtins_open_eq, Hm. cbn zeta.
  rewrite Hif, Hid, Hr, Hx, Hdir, Hf, before_open_files, before_open_dirs.
  destruct (write_or_append mode && how); reflexivity.
Qed.



(** X20.  Mode [r+b] writes without [w] or [a]: the wrapper neither
    deletes nor rewrites the digest file.  After overwriting the start of a
    file whose digest was right, the digest file still holds the old digest,
    and if the new contents hash differently every later [hash_open] under
    [Raise] raises. *)
Theorem update_mode_stale_digest (how : bool) (on_error : OnError) (hash_name : string)
    (h : bytes -> bytes) (file hp : Path) (c data : bytes) (w : World) :
  hashlib hash_name = Some h -> hash_path_of file hash_name = inr hp ->
  fs w !! file = Some c -> fs w !! hp = Some (h c) ->
  let new := data ++ drop (length data) c in
  exists w',
    with_write hashlib how on_error hash_name file "r+b" data w = (inr tt, w')
    /\ fs w' !! file = Some new
    /\ fs w' !! hp = Some (h c)
    /\ (h c <> h new ->
        forall how' mode, exists w'',
          hash_open hashlib how' Raise hash_name file mode w' =
            (inl (OSError_modified file (h c) (h new)), w'')).
Proof.
  intros Hh Hhp Hf Hd new.
  pose proof (hash_path_neq _ _ _ Hhp) as Hne.
  assert (~ (on_error = Raise /\ mismatch h file hp w)) as Hok.
  { intros [_ (c' & s' & Hf' & Hd' & Hmm)]. congruence. }
  destruct (hash_open_success how on_error hash_name h file hp "r+b"
              (mkMode false true false false true) w Hh Hhp Hok eq_refl)
    as (pre & Hopen);
    [cbn; rewrite (is_file_true _ _ _ Hf); reflexivity|reflexivity
    |rewrite (is_file_true _ _ _ Hf); reflexivity|].
  cbn zeta in Hopen. cbn [writing reading updating appending creating orb] in Hopen.
  rewrite Hf in Hopen. cbn [default id] in Hopen.
  rewrite (with_write_after_open hashlib how on_error hash_name file "r+b" data _
             (mkOpenFile file true true false O []) w _ Hopen
             (lookup_insert_eq _ _ _) eq_refl).
  cbn [of_path of_append of_pos of_readable of_writable of_buffer app
       fs dirs open_files log HashIO.file fileno].
  rewrite insert_insert_eq.
  change (write_or_append "r+b" && how) with false. cbv iota.
  match goal with
  | |- context [__exit__ _ (mkWrapper ?f _ _ _) ?W] =>
      pose proof (exit_plain hashlib f (mkOpenFile file true true false O data)
                    c W (lookup_insert_eq _ _ _) (lookup_insert_eq _ _ _)) as Hexit
  end.
  cbn [of_path] in Hexit. rewrite Hexit. clear Hexit.
  unfold flushed. cbn [of_append of_pos of_buffer take app Nat.add]. fold new.
  eexists. split; [reflexivity|]. cbn [fs open_files fileno].
  split; [apply lookup_insert_eq|].
  assert (forall w1, fs w1 = <[file := new]> (<[file := c]> (fs (before_open hp "r+b"
            (mkWorld (fs w) (dirs w) (open_files w) (log w ++ pre))))) ->
          fs w1 !! hp = Some (h c))
    as Hkept.
  { intros w1 ->. rewrite !lookup_insert_ne by congruence. exact Hd. }
  split; [apply (Hkept (mkWorld _ ∅ ∅ [])); reflexivity|].
  intros Hstale how' mode. eexists.
  apply (HashIOClaims.hash_open_mismatch_raise hashlib how' hash_name h file hp mode new (h c));
    [exact Hh|exact Hhp|apply lookup_insert_eq| |exact Hstale].
  cbn [fs]. rewrite !lookup_insert_ne by congruence. exact Hd.
Qed.


End Hashlib.

Lemma mismatch_signal_witness :
  (exists p e a,
      fst (HashIO.open hashlib_sha256 testfile "r" tampered_world)
      = inl (OSError_modified p e a))
  /\ ~ (exists p e a,
          fst (hash_open hashlib_sha256 true Warn "sha256" testfile "r" tampered_world)
          = inl (OSError_modified p e a)).
Proof.
  assert (mismatch Sha256.sha256 testfile testfile_sha256 tampered_world) as Hm.
  { exists b123456, b12345. split; [reflexivity|]. split; [reflexivity|].
    vm_compute. discriminate. }
  split.
  - apply (mismatch_signal hashlib_sha256 true Raise "sha256" Sha256.sha256
             testfile testfile_sha256 "r" tampered_world eq_refl eq_refl).
    split; [reflexivity|exact Hm].
  - intros Hp.
    apply (mismatch_signal hashlib_sha256 true Warn "sha256" Sha256.sha256
             testfile testfile_sha256 "r" tampered_world eq_refl eq_refl) in Hp.
    destruct Hp as [Hp _]. discriminate Hp.
Defined.



Lemma update_mode_stale_digest_witness :
  exists w',
    with_write hashlib_sha256 true Raise "sha256" testfile "r+b" [Byte.x39] valid_world
      = (inr tt, w')
    /\ fs w' !! testfile
       = Some [Byte.x39; Byte.x32; Byte.x33; Byte.x34; Byte.x35; Byte.x36]
    /\ fs w' !! testfile_sha256 = Some sha256_of_123456
    /\ exists e w'', HashIO.open hashlib_sha256 testfile "r" w' = (inl e, w'').
Proof.
  destruct (update_mode_stale_digest hashlib_sha256 true Raise "sha256" Sha256.sha256
              testfile testfile_sha256 b123456 [Byte.x39] valid_world)
    as (w' & Hrun & Hf & Hd & Hstale); [reflexivity..|].
  exists w'. split; [exact Hrun|]. split; [exact Hf|]. split; [exact Hd|].
  destruct (Hstale ltac:(vm_compute; discriminate) true "r") as [w'' Hopen].
  eexists _, w''. exact Hopen.
Defined.

Lemma hash_open_without_w_or_a_witness :
  fs (snd (HashIO.open hashlib_sha256 testfile "r+" tampered_world)) = fs tampered_world
  /\ fs (snd (hash_open hashlib_sha256 true Warn "sha256" testfile "xb" tampered_world))
       !! testfile_sha256 = Some b12345.
Proof.
  split.
  - apply (hash_open_without_w_or_a hashlib_sha256 true Raise "sha256" testfile "r+"
             tampered_world) with (m := mkMode false true false false true); reflexivity.
  - apply (hash_open_without_w_or_a hashlib_sha256 true Warn "sha256" testfile "xb"
             tampered_world); reflexivity.
Defined.

End HashIOExtras.

(** ** CSV records *)

Module CsvExtras.
Import Csv ExtraVocabulary.


Lemma skip_blank_none (row : list string) (rest : list (list string)) (n : nat) :
  List.filter nonblank (row :: rest) = [] -> skip_blank row rest n = None.
Proof.
  revert row n. induction rest as [|r rest IH]; intros row n; destruct row; cbn;
    try discriminate; auto.
Qed.

Lemma skip_blank_some (row row' : list string) (rest l : list (list string)) (n : nat) :
  List.filter nonblank (row :: rest) = row' :: l ->
  exists rest' n',
    skip_blank row rest n = Some (row', mkReader rest' n')
    /\ l = List.filter nonblank rest'
    /\ (length rest' <= length rest)%nat /\ (n <= n')%nat.
Proof.
  revert row n. induction rest as [|r rest IH]; intros row n; destruct row as [|c row];
    cbn [List.filter nonblank skip_blank]; try discriminate.
  - intros [= <- <-]. exists [], n. cbn. auto.
  - intros Hf. destruct (IH r (S n) Hf) as (rest' & n' & -> & Hl & Hlen & Hn).
    exists rest', n'. cbn. repeat split; [exact Hl|lia|lia].
  - intros [= <- <-]. exists (r :: rest), n. cbn. auto.
Qed.

(** Iterating once the field names are known. *)
Lemma collect_rows (fuel : nat) (names : list string) (missing : option string)
    (rs : list (list string)) (n k : nat) :
  (length rs < fuel)%nat -> n <> O ->
  collect fuel (mkDictReader (mkReader rs k) missing n (Some names)) =
    Some (inr (map (row_to_dict missing names) (List.filter nonblank rs))).
Proof.
  revert rs n k. induction fuel as [|fuel IH]; intros rs n k Hlen Hn; [lia|].
  cbn [collect]. unfold __next__.
  destruct n as [|n]; [contradiction|]. cbn [Nat.eqb line_num reader reader_next rows].
  destruct rs as [|row rs]; [reflexivity|].
  cbn -[skip_blank collect row_to_dict List.filter].
  destruct (List.filter nonblank (row :: rs)) as [|row' l] eqn:Hf.
  - rewrite (skip_blank_none row rs (S k) Hf). reflexivity.
  - destruct (skip_blank_some row row' rs l (S k) Hf) as (rest' & n' & -> & -> & Hlen' & Hn').
    cbn -[skip_blank collect row_to_dict List.filter].
    rewrite IH by (cbn in Hlen; lia). reflexivity.
Qed.

(** X23.  Listing a [DictReader] over a header row and more rows gives one
    record per row that is not blank, in order, each built from the header;
    blank rows are skipped wherever they are, a header alone or no row at all
    gives the empty list, and with the field names set beforehand every row is
    data. *)
Theorem DictReader_rows (missing : option string) (header : list string)
    (rs : list (list string)) :
  collect (S (length (header :: rs))) (from_rows (header :: rs) missing) =
    Some (inr (map (row_to_dict missing header) (List.filter nonblank rs)))
  /\ collect (S (length rs)) (set_fieldnames (from_rows rs missing) header) =
       Some (inr (map (row_to_dict missing header) (List.filter nonblank rs)))
  /\ collect 1 (from_rows [] missing) = Some (inr []).
Proof.
  split; [|split; [|reflexivity]].
  - cbn [length]. set (fuel := S (length rs)).
    cbn [collect]. unfold __next__, from_rows.
    cbn [Nat.eqb line_num reader reader_next rows fieldnames _fieldnames missing_value
         reader_line_num fst snd].
    destruct rs as [|row rs']; [reflexivity|].
    cbn -[skip_blank collect row_to_dict List.filter].
    destruct (List.filter nonblank (row :: rs')) as [|row' l] eqn:Hf.
    + rewrite (skip_blank_none row rs' 2 Hf). reflexivity.
    + destruct (skip_blank_some row row' rs' l 2 Hf) as (rest' & n' & -> & -> & Hlen' & Hn').
      cbn -[skip_blank collect row_to_dict List.filter].
      rewrite collect_rows by (unfold fuel; cbn; lia). reflexivity.
  - destruct rs as [|row rs']; [reflexivity|].
    cbn [length]. set (fuel := S (length rs')).
    cbn [collect]. unfold __next__, from_rows, set_fieldnames.
    cbn -[skip_blank collect row_to_dict List.filter].
    destruct (List.filter nonblank (row :: rs')) as [|row' l] eqn:Hf.
    + rewrite (skip_blank_none row rs' 1 Hf). reflexivity.
    + destruct (skip_blank_some row row' rs' l 1 Hf) as (rest' & n' & -> & -> & Hlen' & Hn').
      cbn -[skip_blank collect row_to_dict List.filter].
      rewrite collect_rows by (unfold fuel; cbn; lia). reflexivity.
Qed.

Lemma dict_of_acc (pairs : list (string * string)) (d : gmap string string) :
  fold_left (fun d kv => <[kv.1 := kv.2]> d) pairs d =
    foldr (fun kv d => <[kv.1 := kv.2]> d) d (reverse pairs).
Proof.
  revert d. induction pairs as [|kv pairs IH]; intros d; [reflexivity|].
  cbn [fold_left]. rewrite IH, reverse_cons, foldr_app. reflexivity.
Qed.

Lemma dict_of_list_to_map (pairs : list (string * string)) :
  dict_of pairs = list_to_map (reverse pairs).
Proof. apply dict_of_acc. Qed.

Lemma pairs_elem (missing : option string) (names row : list string) (k v : string) :
  (k, v) ∈ omap keep_pair (combine names (map (cell missing) row))
  <-> exists i s, names !! i = Some k /\ row !! i = Some s /\ cell missing s = Some v.
Proof.
  revert row. induction names as [|n names IH]; intros [|s row]; cbn.
  - split; [intros H; inversion H|intros (i & ? & H & _); destruct i; discriminate].
  - split; [intros H; inversion H|intros (i & ? & H & _); destruct i; discriminate].
  - split; [intros H; inversion H|intros (i & ? & _ & H & _); destruct i; discriminate].
  - unfold keep_pair at 1. cbn [fst snd].
    destruct (cell missing s) as [v0|] eqn:Hc.
    + rewrite elem_of_cons, IH. split.
      * intros [[= -> ->]|(i & s' & Hn & Hr & Hv)].
        -- exists O, s. auto.
        -- exists (S i), s'. auto.
      * intros ([|i] & s' & Hn & Hr & Hv); cbn in *.
        -- left. congruence.
        -- right. eauto.
    + rewrite IH. split.
      * intros (i & s' & Hn & Hr & Hv). exists (S i), s'. auto.
      * intros ([|i] & s' & Hn & Hr & Hv); cbn in *; [congruence|eauto].
Qed.

Lemma pairs_keys (missing : option string) (names row : list string) (k : string) :
  k ∈ (omap keep_pair (combine names (map (cell missing) row))).*1 -> k ∈ names.
Proof.
  intros Hk. apply list_elem_of_fmap in Hk as ([k' v] & -> & Hin).
  apply pairs_elem in Hin as (i & _ & Hn & _). eapply list_elem_of_lookup_2, Hn.
Qed.

Lemma pairs_NoDup (missing : option string) (names row : list string) :
  NoDup names -> NoDup (omap keep_pair (combine names (map (cell missing) row))).*1.
Proof.
  revert row. induction names as [|n names IH]; intros [|s row] Hnd; cbn;
    try constructor.
  apply NoDup_cons in Hnd as [Hn Hnd]. unfold keep_pair at 1. cbn [fst snd].
  destruct (cell missing s); [|apply IH, Hnd].
  cbn. constructor; [|apply IH, Hnd]. intros Hk. apply Hn. eapply pairs_keys, Hk.
Qed.

(** X24.  A record only has keys of the header, and the value of a key is a
    cell of the row in that key's column: the cell itself, or the missing
    value for an empty cell.  With distinct field names the record at a field
    name is exactly that: absent when the row is too short or, with no missing
    value, when the cell is empty. *)
Theorem row_to_dict_lookup (missing : option string) (names row : list string) :
  (forall k v, row_to_dict missing names row !! k = Some v ->
     exists i s, names !! i = Some k /\ row !! i = Some s /\ cell missing s = Some v)
  /\ (NoDup names -> forall i k, names !! i = Some k ->
      row_to_dict missing names row !! k = row !! i ≫= cell missing).
Proof.
  assert (forall k v, row_to_dict missing names row !! k = Some v ->
     exists i s, names !! i = Some k /\ row !! i = Some s /\ cell missing s = Some v) as Hsome.
  { intros k v Hl. unfold row_to_dict in Hl. rewrite dict_of_list_to_map in Hl.
    apply elem_of_list_to_map_2, elem_of_reverse, pairs_elem in Hl. exact Hl. }
  split; [exact Hsome|].
  intros Hnd i k Hi.
  destruct (row !! i ≫= cell missing) as [v|] eqn:Hv.
  - unfold row_to_dict. rewrite dict_of_list_to_map.
    apply elem_of_list_to_map_1.
    + rewrite fmap_reverse, reverse_Permutation. apply pairs_NoDup, Hnd.
    + apply elem_of_reverse, pairs_elem. destruct (row !! i) as [s|] eqn:Hr; [|discriminate].
      exists i, s. auto.
  - destruct (row_to_dict missing names row !! k) as [v|] eqn:Hl; [|reflexivity].
    exfalso. destruct (Hsome k v Hl) as (j & s & Hj & Hr & Hc).
    assert (j = i) as -> by (eapply NoDup_lookup; eauto).
    rewrite Hr in Hv. cbn in Hv. congruence.
Qed.

Lemma row_to_dict_lookup_witness :
  row_to_dict None ["col1"; "col2"; "col3"] ["d"; ""] !! "col1" = Some "d"
  /\ row_to_dict None ["col1"; "col2"; "col3"] ["d"; ""] !! "col2" = None
  /\ row_to_dict None ["col1"; "col2"; "col3"] ["d"; ""] !! "col3" = None.
Proof.
  destruct (row_to_dict_lookup None ["col1"; "col2"; "col3"] ["d"; ""]) as [_ Hl].
  assert (NoDup ["col1"; "col2"; "col3"]) as Hnd
    by (refine (bool_decide_unpack _ _); vm_compute; exact I).
  split; [apply (Hl Hnd 0%nat); reflexivity|].
  split; [apply (Hl Hnd 1%nat); reflexivity|apply (Hl Hnd 2%nat); reflexivity].
Defined.

(** Rows that give the records [test_read] expects. *)
Lemma read_rows_example :
  read_rows [["col1"; "col2"; "col3"]; ["a"; "b"; "c"]; []; [""; ""; ""]; ["d"; "e"]] =
    Some (inr [ {[ "col1" := "a"; "col2" := "b"; "col3" := "c" ]};
                ∅;
                {[ "col1" := "d"; "col2" := "e" ]} ]).
Proof. vm_compute. reflexivity. Qed.

End CsvExtras.
